(** * Food Affordability dashboard (Dashboard/dashb.py)

    A shallow embedding of the dashboard script: the four loaded tables,
    the pandas operations the render routines call on them (boolean row
    filter, groupby/aggregate, sort_values, head/tail, pivot, pct_change,
    dropna), the render routines themselves as programs over a store of
    data frames and a page of emitted widgets, and the view router.

    Numbers.  A pandas float64 cell is modelled by [float64]: an exact
    rational, one of the two infinities, or NaN (which is also how pandas
    represents a missing value).  Rounding and signed zeros are not
    modelled; the special values follow IEEE 754. *)

From Stdlib Require Import QArith Qcanon.
From stdpp Require Import strings numbers list sorting.

Close Scope Qc_scope.
Close Scope Q_scope.

(** ** float64 cells *)

Inductive float64 :=
| Fin (q : Qc)
| PInf
| NInf
| NaN.

Global Instance float64_eq_dec : EqDecision float64.
Proof. solve_decision. Defined.

Definition isna (x : float64) : bool :=
  match x with NaN => true | _ => false end.

Definition notna (x : float64) : bool := negb (isna x).

(** The infinity (or NaN) carrying the sign given by a comparison with 0. *)
Definition signed_inf (c : comparison) : float64 :=
  match c with Gt => PInf | Lt => NInf | Eq => NaN end.

Definition sgn (q : Qc) : comparison := (q ?= 0)%Qc.

Definition fneg (x : float64) : float64 :=
  match x with
  | Fin q => Fin (- q)%Qc
  | PInf => NInf
  | NInf => PInf
  | NaN => NaN
  end.

Definition fadd (x y : float64) : float64 :=
  match x, y with
  | NaN, _ | _, NaN => NaN
  | Fin a, Fin b => Fin (a + b)%Qc
  | PInf, NInf | NInf, PInf => NaN
  | PInf, _ | _, PInf => PInf
  | NInf, _ | _, NInf => NInf
  end.

Definition fsub (x y : float64) : float64 := fadd x (fneg y).

Definition fmul (x y : float64) : float64 :=
  match x, y with
  | NaN, _ | _, NaN => NaN
  | Fin a, Fin b => Fin (a * b)%Qc
  | Fin a, PInf | PInf, Fin a => signed_inf (sgn a)
  | Fin a, NInf | NInf, Fin a => signed_inf (CompOpp (sgn a))
  | PInf, PInf | NInf, NInf => PInf
  | PInf, NInf | NInf, PInf => NInf
  end.

(** Division as numpy performs it on float64 arrays: a finite non-zero
    value over zero is an infinity, zero over zero and infinity over
    infinity are NaN; nothing raises. *)
Definition fdiv (x y : float64) : float64 :=
  match x, y with
  | NaN, _ | _, NaN => NaN
  | Fin a, Fin b =>
      if decide (b = 0%Qc) then signed_inf (sgn a) else Fin (a / b)%Qc
  | Fin _, (PInf | NInf) => Fin 0%Qc
  | PInf, Fin b => if decide (b < 0)%Qc then NInf else PInf
  | NInf, Fin b => if decide (b < 0)%Qc then PInf else NInf
  | (PInf | NInf), (PInf | NInf) => NaN
  end.

(** [x <= y] on cells that are not NaN. *)
Definition fleb (x y : float64) : bool :=
  match x, y with
  | NaN, _ | _, NaN => false
  | NInf, _ | _, PInf => true
  | PInf, _ | _, NInf => false
  | Fin a, Fin b => bool_decide (a ≤ b)%Qc
  end.

Definition of_nat (n : nat) : float64 := Fin (Qc_of_Z (Z.of_nat n)).
Definition of_Z (z : Z) : float64 := Fin (Qc_of_Z z).

(** ** Series operations (pandas) *)

(** A float column with the default positional index is a list of cells. *)
Abbreviation Series := (list float64).

(** [Series.ffill] (fill_method='pad'): a NaN takes the last valid value
    before it; leading NaNs stay. *)
Fixpoint ffill_from (last : float64) (s : Series) : Series :=
  match s with
  | [] => []
  | x :: s' =>
      if isna x then last :: ffill_from last s'
      else x :: ffill_from x s'
  end.

Definition ffill (s : Series) : Series := ffill_from NaN s.

(** [Series.shift(periods)] for a non-negative [periods]: values move
    down, the first [periods] positions become NaN, the length is kept. *)
Definition shift (periods : nat) (s : Series) : Series :=
  take (length s) (replicate periods NaN ++ s).

(** The [fill_method] argument of [pct_change].  The script passes none,
    so the library default applies: padding up to pandas 2.x, no filling
    from pandas 3.  Both are modelled; the routines take the default of
    the installed pandas as a parameter. *)
Inductive fill_method := Pad | NoFill.

Definition fill (fm : fill_method) (s : Series) : Series :=
  match fm with Pad => ffill s | NoFill => s end.

(** [Series.pct_change(periods)]:
    [data = self.fillna(method=fill_method); data / data.shift(periods) - 1]. *)
Definition pct_change (fm : fill_method) (periods : nat) (s : Series) : Series :=
  let data := fill fm s in
  zip_with (λ a b, fsub (fdiv a b) (Fin 1%Qc)) data (shift periods data).

(** [series * 100]. *)
Definition times100 (s : Series) : Series :=
  (λ x, fmul x (of_Z 100)) <$> s.

(** ** List utilities standing for Python and pandas built-ins *)

(** [Series.unique()]: distinct values in order of first appearance. *)
Fixpoint unique `{EqDecision A} (l : list A) : list A :=
  match l with
  | [] => []
  | x :: l' => x :: filter (λ y, y ≠ x) (unique l')
  end.

(** A stable insertion sort; [leb x y] says that [x] may stand before [y].
    It stands for Python's [sorted] and for the sorts inside pandas. *)
Fixpoint insert_by {A} (leb : A → A → bool) (x : A) (l : list A) : list A :=
  match l with
  | [] => [x]
  | y :: l' => if leb x y then x :: l else y :: insert_by leb x l'
  end.

Definition sort_by {A} (leb : A → A → bool) (l : list A) : list A :=
  foldr (insert_by leb) [] l.

(** [DataFrame.head(n)] and [DataFrame.tail(n)]. *)
Definition head_n {A} (n : nat) (l : list A) : list A := take n l.
Definition tail_n {A} (n : nat) (l : list A) : list A := drop (length l - n) l.

(** [df.groupby(key)] with the default [sort=True]: one group per distinct
    key, groups in ascending key order, rows of a group in table order. *)
Definition groupby {A} `{EqDecision K} (kleb : K → K → bool)
    (key : A → K) (rows : list A) : list (K * list A) :=
  (λ k, (k, filter (λ r, key r = k) rows)) <$>
    sort_by kleb (unique (key <$> rows)).

(** ** Aggregations (NaN cells are skipped, as pandas does by default) *)

Definition valid (xs : Series) : Series := filter (λ x, notna x) xs.

Definition count (xs : Series) : nat := length (valid xs).

Definition fsum (xs : Series) : float64 := foldr fadd (Fin 0%Qc) xs.

(** [.sum()]: the sum of the valid cells; 0 when there is none. *)
Definition agg_sum (xs : Series) : float64 := fsum (valid xs).

(** [.mean()]: sum over count of the valid cells; NaN (0/0) when there is
    none. *)
Definition agg_mean (xs : Series) : float64 :=
  fdiv (agg_sum xs) (of_nat (count xs)).

(** [.median()]: middle of the sorted valid cells, or the mean of the two
    middle ones; NaN when there is none. *)
Definition agg_median (xs : Series) : float64 :=
  let v := sort_by fleb (valid xs) in
  let n := length v in
  if decide (n = 0) then NaN
  else if Nat.odd n then default NaN (v !! (n / 2))
  else fdiv (fadd (default NaN (v !! (n / 2 - 1))) (default NaN (v !! (n / 2))))
            (of_Z 2).

(** [.var(ddof)]: NaN when the count of valid cells is at most [ddof],
    else the sum of squared deviations from the mean over [count - ddof]. *)
Definition agg_var (ddof : nat) (xs : Series) : float64 :=
  let ct := count xs in
  if decide (ct ≤ ddof) then NaN
  else
    let m := agg_mean xs in
    let ssqdm := fsum ((λ x, let d := fsub x m in fmul d d) <$> valid xs) in
    fdiv ssqdm (of_nat (ct - ddof)).

(** Square root of a cell, over a square root [sq] of the non-negative
    rationals (a parameter: no result below depends on its values). *)
Definition fsqrt (sq : Qc → Qc) (x : float64) : float64 :=
  match x with
  | Fin q => if decide (q < 0)%Qc then NaN else Fin (sq q)
  | PInf => PInf
  | NInf | NaN => NaN
  end.

(** [.std()]: the square root of the sample variance ([ddof=1]). *)
Definition agg_std (sq : Qc → Qc) (xs : Series) : float64 :=
  fsqrt sq (agg_var 1 xs).

(** A Series indexed by labels of type [K]. *)
Abbreviation LSeries K := (list (K * float64)).

(** [Series.sort_values(ascending=False)] with the default
    [na_position='last']: the valid entries in descending order (equal
    values in their former order), then the NaN entries in their former
    order.  On long series the default quicksort of pandas may order equal
    valid values otherwise; no result below depends on the order of ties. *)
Definition sort_values_desc {K} (s : LSeries K) : LSeries K :=
  sort_by (λ a b, fleb b.2 a.2) (filter (λ e, notna e.2) s) ++
  filter (λ e, isna e.2) s.

(** ** The loaded tables

    [food_afford.csv] and [affordability_final.csv] with the columns the
    script reads.  Key cells (Item, Date, Tag) are present in every row;
    price and affordability cells are float64 and may be NaN.  The Date
    column of the affordability table is parsed ([parse_dates]); the one of
    the food table stays text. *)

Module Food.
Record row := {
  Item : string;
  Date : string;
  Price_per_kg_or_litre : float64;
  Tag : string
}.
End Food.

Record Timestamp := { year : Z; month : Z; day : Z }.

Module Afford.
Record row := {
  Date : Timestamp;
  Basket_Cost_Euro : float64;
  Affordability_Ratio : float64;
  Affordability_Index : float64
}.
End Afford.

Global Instance Timestamp_eq_dec : EqDecision Timestamp.
Proof. solve_decision. Defined.
Global Instance Food_row_eq_dec : EqDecision Food.row.
Proof. solve_decision. Defined.
Global Instance Afford_row_eq_dec : EqDecision Afford.row.
Proof. solve_decision. Defined.

(** ** Item-level computations (render_item_level) *)

(** [sorted(food['Item'].unique())]: the options of the item selector. *)
Definition item_options (food : list Food.row) : list string :=
  sort_by String.leb (unique (Food.Item <$> food)).

(** [st.selectbox] returns the option the user picked, the first one by
    default, and [None] when there is no option. *)
Definition selectbox (options : list string) (choice : nat) : option string :=
  match options !! choice with
  | Some o => Some o
  | None => head options
  end.

(** [food[food['Item'] == item_selected]]; comparing with [None] is false
    on every row. *)
Definition item_data (food : list Food.row) (item_selected : option string)
    : list Food.row :=
  filter (λ r, Some (Food.Item r) = item_selected) food.

(** The (x, y) points [px.line(item_data, x="Date", y="Price_per_kg_or_litre")]
    draws. *)
Definition item_points (rows : list Food.row) : list (string * float64) :=
  (λ r, (Food.Date r, Food.Price_per_kg_or_litre r)) <$> rows.

(** [food.groupby('Item')['Price_per_kg_or_litre'].agg()] *)
Definition by_item (agg : Series → float64) (food : list Food.row)
    : LSeries string :=
  (λ g, (g.1, agg (Food.Price_per_kg_or_litre <$> g.2))) <$>
    groupby String.leb Food.Item food.

(** [food.groupby('Item')[...].std().sort_values(ascending=False)] *)
Definition volatility (sq : Qc → Qc) (food : list Food.row) : LSeries string :=
  sort_values_desc (by_item (agg_std sq) food).

Definition top5_most_vol sq food := head_n 5 (volatility sq food).
Definition top5_least_vol sq food := tail_n 5 (volatility sq food).

(** [food.groupby("Item")[...].mean().sort_values(ascending=False)] *)
Definition avg_price (food : list Food.row) : LSeries string :=
  sort_values_desc (by_item agg_mean food).

Definition top5_expensive food := head_n 5 (avg_price food).
Definition top5_cheap food := tail_n 5 (avg_price food).

(** ** Category-level computations (render_Category_level_Analysis) *)

Inductive metric := Mean | Median.

Record MonthlyStat := {
  ms_Date : string;
  ms_Tag : string;
  Monthly_Mean : float64;
  Monthly_Median : float64
}.

Definition pair_leb (a b : string * string) : bool :=
  match String.compare a.1 b.1 with
  | Lt => true
  | Gt => false
  | Eq => String.leb a.2 b.2
  end.

(** [food.groupby(['Date', 'Tag'])[price].agg(['mean', 'median'])
      .reset_index().rename(...)] *)
Definition monthly_stats (food : list Food.row) : list MonthlyStat :=
  (λ g, let prices := Food.Price_per_kg_or_litre <$> g.2 in
        {| ms_Date := g.1.1; ms_Tag := g.1.2;
           Monthly_Mean := agg_mean prices;
           Monthly_Median := agg_median prices |}) <$>
    groupby pair_leb (λ r, (Food.Date r, Food.Tag r)) food.

(** [metric_col = f'Monthly_{metric_selected}'] *)
Definition metric_col (m : metric) (r : MonthlyStat) : float64 :=
  match m with Mean => Monthly_Mean r | Median => Monthly_Median r end.

(** [monthly_stats[['Date', 'Tag', metric_col]].rename(...)] *)
Definition monthly_filtered (m : metric) (ms : list MonthlyStat)
    : list (string * string * float64) :=
  (λ r, (ms_Date r, ms_Tag r, metric_col m r)) <$> ms.

Inductive exn :=
| ValueError (msg : string).

(** A wide table: the Date index and one float column per Tag. *)
Record Pivot := {
  pv_index : list string;
  pv_columns : list (string * Series)
}.

Definition pivot_cell (ms : list MonthlyStat) (m : metric) (d t : string)
    : float64 :=
  match list_find (λ r, (ms_Date r, ms_Tag r) = (d, t)) ms with
  | Some (_, r) => metric_col m r
  | None => NaN
  end.

(** [monthly_stats.pivot(index='Date', columns='Tag', values=metric_col)]:
    raises ValueError when an (index, column) pair occurs twice; else one
    row per distinct Date and one column per distinct Tag, both ascending,
    NaN where the pair is absent. *)
Definition pivot (ms : list MonthlyStat) (m : metric) : exn + Pivot :=
  if decide (NoDup ((λ r, (ms_Date r, ms_Tag r)) <$> ms)) then
    let index := sort_by String.leb (unique (ms_Date <$> ms)) in
    inr {| pv_index := index;
           pv_columns :=
             (λ t, (t, (λ d, pivot_cell ms m d t) <$> index)) <$>
               sort_by String.leb (unique (ms_Tag <$> ms)) |}
  else inl (ValueError "Index contains duplicate entries, cannot reshape").

(** [pivot.pct_change(periods=12) * 100], column by column. *)
Definition yoy_of (fm : fill_method) (p : Pivot) : Pivot :=
  {| pv_index := pv_index p;
     pv_columns := (λ c, (c.1, times100 (pct_change fm 12 c.2))) <$> pv_columns p |}.

(** [yoy.reset_index().melt(id_vars='Date', var_name='Tag',
    value_name='YoY_Change')]: one row per column and Date. *)
Definition melt (p : Pivot) : list (string * string * float64) :=
  c ← pv_columns p; (λ dv, (dv.1, c.1, dv.2)) <$> zip (pv_index p) c.2.

(** ** Affordability computations (render_affordability) *)

Inductive granularity := Monthly | Annual.

Definition afford_floats (r : Afford.row) : Series :=
  [Afford.Basket_Cost_Euro r; Afford.Affordability_Ratio r;
   Afford.Affordability_Index r].

(** [DataFrame.dropna()] on the affordability columns plus extra float
    columns: a row stays when none of its cells is NaN. *)
Definition dropna_rows {A} (floats : A → Series) (rows : list (A * Series))
    : list (A * Series) :=
  filter (λ r, forallb notna (floats r.1 ++ r.2) = true) rows.

(** [afford.groupby(afford['Date'].dt.year)[col].agg().reset_index()] *)
Definition by_year (col : Afford.row → float64) (agg : Series → float64)
    (afford : list Afford.row) : LSeries Z :=
  (λ g, (g.1, agg (col <$> g.2))) <$>
    groupby Z.leb (λ r, year (Afford.Date r)) afford.

Definition yearly_avg afford := by_year Afford.Basket_Cost_Euro agg_mean afford.
Definition yearly_total afford := by_year Afford.Basket_Cost_Euro agg_sum afford.
Definition annual_index afford := by_year Afford.Affordability_Index agg_mean afford.

(** ** The page: widgets emitted by the Streamlit calls *)

Inductive xval :=
| XStr (s : string)
| XTime (t : Timestamp)
| XInt (z : Z).

(** One plotted point: x, y and the value of the [color] column if any. *)
Record point := { pt_x : xval; pt_y : float64; pt_color : option string }.

Inductive tcell :=
| TStr (s : string)
| TNum (x : float64).

Inductive widget :=
| Title (s : string)
| Header (s : string)
| Subheader (s : string)
| Markdown (s : string)
| Caption (s : string)
| Info (s : string)
| SelectboxW (label : string) (options : list string)
| RadioW (label : string) (options : list string)
| LineChart (title : string) (pts : list point)
| BarChart (title : string) (pts : list point)
| Table (columns : list string) (rows : list (list tcell)).

(** ** The store: data frames are objects, variables hold references

    A frame is its key part (the typed rows of a loaded table, or the year
    of a per-year aggregate) with the float columns added to it by name. *)

Inductive frame :=
| AffordFrame (extra : list string) (rows : list (Afford.row * Series))
| FoodFrame (rows : list Food.row)
| RawFrame (rows : list (list string))
| YearFrame (columns : list string) (rows : list (Z * Series)).

Record State := {
  heap : list frame;
  page : list widget
}.

(** Programs: a state transformer that returns a value or raises. *)
Definition M (A : Type) : Type := State → (exn + A) * State.

Global Instance M_ret : MRet M := λ A a s, (inr a, s).
Global Instance M_bind : MBind M := λ A B k m s,
  match m s with
  | (inr a, s') => k a s'
  | (inl e, s') => (inl e, s')
  end.

Definition raise {A} (e : exn) : M A := λ s, (inl e, s).

Definition lift {A} (r : exn + A) : M A :=
  match r with inl e => raise e | inr a => mret a end.

(** A new object, placed after all existing ones; its reference (its
    position in the store) is returned. *)
Definition alloc (f : frame) : M nat := λ s,
  (inr (length (heap s)), {| heap := heap s ++ [f]; page := page s |}).

Definition read (r : nat) : M frame := λ s,
  match heap s !! r with
  | Some f => (inr f, s)
  | None => (inl (ValueError "dangling reference"), s)
  end.

(** In-place update of the object behind a reference. *)
Definition write (r : nat) (f : frame) : M unit := λ s,
  (inr (), {| heap := <[r := f]> (heap s); page := page s |}).

(** A Streamlit call appends its widget to the page. *)
Definition emit (w : widget) : M unit := λ s,
  (inr (), {| heap := heap s; page := page s ++ [w] |}).

(** *** Frame operations *)

(** [df.copy()] *)
Definition copy (r : nat) : M nat := f ← read r; alloc f.

Definition set_cell (names : list string) (name : string) (x : float64)
    (cells : Series) : Series :=
  match list_find (λ n, n = name) names with
  | Some (j, _) => <[j := x]> cells
  | None => cells ++ [x]
  end.

Definition add_name (names : list string) (name : string) : list string :=
  if decide (name ∈ names) then names else names ++ [name].

(** The cells of [col] go to the rows by position; a row without a
    partner gets NaN. *)
Definition set_cells {A} (names : list string) (name : string) (col : Series)
    (rows : list (A * Series)) : list (A * Series) :=
  zip_with (λ r x, (r.1, set_cell names name x r.2))
    rows (resize (length rows) NaN col).

(** [df[name] = col]: writes into the object [df] refers to. *)
Definition set_column (r : nat) (name : string) (col : Series) : M unit :=
  f ← read r;
  match f with
  | AffordFrame extra rows =>
      write r (AffordFrame (add_name extra name) (set_cells extra name col rows))
  | YearFrame columns rows =>
      write r (YearFrame (add_name columns name)
                 (set_cells (tail columns) name col rows))
  | _ => raise (ValueError "unsupported frame")
  end.

(** [df.columns = names]: renames in place; the number of names must be
    the number of columns. *)
Definition set_columns (r : nat) (names : list string) : M unit :=
  f ← read r;
  match f with
  | YearFrame columns rows =>
      if decide (length names = length columns)
      then write r (YearFrame names rows)
      else raise (ValueError "Length mismatch")
  | _ => raise (ValueError "unsupported frame")
  end.

(** [df.dropna()]: a new frame without the rows that hold a NaN. *)
Definition dropna (f : frame) : frame :=
  match f with
  | AffordFrame extra rows => AffordFrame extra (dropna_rows afford_floats rows)
  | YearFrame columns rows => YearFrame columns (dropna_rows (λ _, []) rows)
  | _ => f
  end.

Definition get_food (r : nat) : M (list Food.row) :=
  f ← read r;
  match f with
  | FoodFrame rows => mret rows
  | _ => raise (ValueError "not the food table")
  end.

Definition get_afford (r : nat) : M (list Afford.row) :=
  f ← read r;
  match f with
  | AffordFrame _ rows => mret (rows.*1)
  | _ => raise (ValueError "not the affordability table")
  end.

(** *** Columns and chart data *)

Definition afford_col (name : string) (extra : list string)
    (r : Afford.row * Series) : option float64 :=
  if decide (name = "Basket_Cost_Euro") then Some (Afford.Basket_Cost_Euro r.1)
  else if decide (name = "Affordability_Ratio") then Some (Afford.Affordability_Ratio r.1)
  else if decide (name = "Affordability_Index") then Some (Afford.Affordability_Index r.1)
  else '(j, _) ← list_find (λ n, n = name) extra; r.2 !! j.

Definition year_col (name : string) (columns : list string)
    (r : Z * Series) : option float64 :=
  '(j, _) ← list_find (λ n, n = name) (tail columns); r.2 !! j.

(** [df[name]] for a float column; a missing name raises. *)
Definition column (f : frame) (name : string) : exn + Series :=
  let missing := inl (ValueError "column not in data frame") in
  match f with
  | AffordFrame extra rows => from_option inr missing (mapM (afford_col name extra) rows)
  | YearFrame columns rows => from_option inr missing (mapM (year_col name columns) rows)
  | _ => missing
  end.

(** The Date (or Year) column, which every chart of these frames has on
    its x axis. *)
Definition frame_x (f : frame) : list xval :=
  match f with
  | AffordFrame _ rows => (λ r, XTime (Afford.Date r.1)) <$> rows
  | YearFrame _ rows => (λ r, XInt r.1) <$> rows
  | _ => []
  end.

Definition xy_points (xs : list xval) (ys : Series) : list point :=
  zip_with (λ x y, {| pt_x := x; pt_y := y; pt_color := None |}) xs ys.

(** The points [px.line] / [px.bar] read from a frame for column [y]. *)
Definition chart_points (f : frame) (y : string) : exn + list point :=
  match column f y with
  | inl e => inl e
  | inr ys => inr (xy_points (frame_x f) ys)
  end.

Definition get_column (r : nat) (name : string) : M Series :=
  f ← read r; lift (column f name).

Definition line_chart (title : string) (f : frame) (y : string) : M unit :=
  pts ← lift (chart_points f y); emit (LineChart title pts).

Definition bar_chart (title : string) (f : frame) (y : string) : M unit :=
  pts ← lift (chart_points f y); emit (BarChart title pts).

(** [series.reset_index()] of a per-year aggregate: a fresh two-column
    frame. *)
Definition year_frame (key value : string) (s : LSeries Z) : frame :=
  YearFrame [key; value] ((λ e, (e.1, [e.2])) <$> s).
(** ** The script

    Static narrative blocks are kept by their first line; emoji are left
    out of the texts. *)

(** The module-level variables bound by the four [pd.read_csv] calls. *)
Record Globals := { afford : nat; food : nat; items : nat; tags : nat }.

(** What the user picked in the controls of this run. *)
Record Inputs := {
  item_choice : nat;
  metric_selected : metric;
  view_type : granularity
}.

Definition load (a : list Afford.row) (f : list Food.row)
    (i t : list (list string)) : M Globals :=
  ra ← alloc (AffordFrame [] ((λ r, (r, [])) <$> a));
  rf ← alloc (FoodFrame f);
  ri ← alloc (RawFrame i);
  rt ← alloc (RawFrame t);
  mret {| afford := ra; food := rf; items := ri; tags := rt |}.

Definition render_home : M unit :=
  emit (Header "About This Project");;
  emit (Markdown "Welcome to the Food Affordability Dashboard for Ireland (2014-2024).").

Definition rank_table (value : string) (s : LSeries string) : widget :=
  Table ["Item"; value] ((λ e, [TStr e.1; TNum e.2]) <$> s).

Definition render_item_level (g : Globals) (sq : Qc → Qc) (inp : Inputs)
    : M unit :=
  emit (Header "Item-Level Cost Drivers");;
  emit (Title "Food Prices – Item Level Analysis");;
  fd ← get_food (food g);
  let options := item_options fd in
  emit (SelectboxW "Select a Food Item" options);;
  let item_selected := selectbox options (item_choice inp) in
  emit (LineChart
          (default "None" item_selected +:+ " Price Over Time (€/kg or €/litre)")
          ((λ p, {| pt_x := XStr p.1; pt_y := p.2; pt_color := None |}) <$>
             item_points (item_data fd item_selected)));;
  emit (Caption "Price trend reveals how external factors (e.g. inflation, supply chain disruptions) may have impacted this item.");;
  emit (Markdown "#### Price Volatility Insights");;
  emit (Subheader "Top 5 Most Volatile Items");;
  emit (rank_table "Std Dev" (top5_most_vol sq fd));;
  emit (Subheader "Top 5 Least Volatile Items");;
  emit (rank_table "Std Dev" (top5_least_vol sq fd));;
  emit (Caption "Volatility highlights which foods fluctuate most — helpful indicator for budgeting or subsidies.");;
  emit (Subheader "Top 5 Most Expensive Items");;
  emit (rank_table "Avg Price (€)" (top5_expensive fd));;
  emit (Subheader "Top 5 Least Expensive Items");;
  emit (rank_table "Avg Price (€)" (top5_cheap fd));;
  emit (Caption "Consistently expensive items tend to be lean proteins or premium items like smoked salmon.");;
  emit (Markdown "### Key Insights");;
  emit (Info "The most price-volatile items were the meats, showing significant fluctuations over time.").

Definition metric_name (m : metric) : string :=
  match m with Mean => "Mean" | Median => "Median" end.

Definition tag_points (rows : list (string * string * float64)) : list point :=
  (λ r, {| pt_x := XStr r.1.1; pt_y := r.2; pt_color := Some r.1.2 |}) <$> rows.

(** [summary_df.set_index("Category")] of the literal [summary_data]. *)
Definition summary_table : widget :=
  Table ["Category"; "Mean Price"; "Median Price (50%)";
         "Skew (Mean > Median?)"; "Price Stability (std)"]
    [ [TStr "Healthy"; TStr "€7.52"; TStr "€3.65"; TStr "High";
       TStr "Medium (7.01)"];
      [TStr "Neutral"; TStr "€6.53"; TStr "€2.20"; TStr "Very High";
       TStr "High (9.64)"];
      [TStr "Unhealthy"; TStr "€6.45"; TStr "€5.27"; TStr "Low";
       TStr "Stable (5.40)"] ].

Definition render_Category_level_Analysis (g : Globals) (fm : fill_method)
    (inp : Inputs) : M unit :=
  emit (Header "Healthy-Related Category Food Trends");;
  emit (Markdown "**Healthy foods** have become more expensive faster than processed foods.");;
  emit (RadioW "Select price metric:" ["Mean"; "Median"]);;
  let m := metric_selected inp in
  fd ← get_food (food g);
  let ms := monthly_stats fd in
  let mf := monthly_filtered m ms in
  pv ← lift (pivot ms m);
  let yoy := yoy_of fm pv in
  let yoy_long := melt yoy in
  emit (LineChart ("Monthly Prices by Category (" +:+ metric_name m +:+ ")")
          (tag_points mf));;
  emit (Caption ("Healthy food prices (" +:+ metric_name m +:+ ") have trended higher than others."));;
  emit (LineChart ("Year-over-Year % Change in Prices (" +:+ metric_name m +:+ ")")
          (tag_points yoy_long));;
  emit (Caption "Year-over-year price shifts show volatility, it highlights the magnitude of the increase between 2022 and 2024.");;
  emit (Markdown "### Nutrition Category Summary");;
  emit summary_table;;
  emit (Caption "A large gap between mean and median (e.g. Healthy: €7.52 vs €3.65) suggests a few expensive items (mainly proteins) drive up the average — indicating price inequality within that category.");;
  emit (Markdown "### Key Insights");;
  emit (Info "Among categories: Healthy foods had the highest average price (€7.52), but a low median (€3.65).").

Definition render_affordability (g : Globals) (fm : fill_method)
    (inp : Inputs) : M unit :=
  emit (Header "Affordability Analysis (2014–2024)");;
  emit (Markdown "This section shows how affordable a healthy food basket is relative to household income in Ireland.");;
  emit (RadioW "Select time granularity:" ["Monthly"; "Annual"]);;
  match view_type inp with
  | Monthly =>
      emit (Subheader "Monthly Basket Cost (€)");;
      a ← read (afford g);
      line_chart "Monthly Basket Cost (€)" a "Basket_Cost_Euro";;
      emit (Caption "Basket costs rose steadily across the decade, with post-2021 showing the steepest increases.");;
      emit (Subheader "Monthly Year-over-Year % Change");;
      monthly_yoy ← copy (afford g);
      basket ← get_column monthly_yoy "Basket_Cost_Euro";
      set_column monthly_yoy "Monthly_YoY_%" (times100 (pct_change fm 12 basket));;
      my ← read monthly_yoy;
      line_chart "Monthly YoY % Change in Basket Cost" (dropna my) "Monthly_YoY_%";;
      emit (Caption "The largest YoY spike occurred in **Jan 2023**, with a **13.87%** increase — likely reflecting inflation shocks.")
  | Annual =>
      emit (Subheader "Average Annual Basket Cost (Per Month Average × 12)");;
      rows ← get_afford (afford g);
      yearly_avg ← alloc (year_frame "Date" "Basket_Cost_Euro" (yearly_avg rows));
      set_columns yearly_avg ["Year"; "Avg_Basket_Cost"];;
      ya ← read yearly_avg;
      bar_chart "Average Monthly Basket Cost (Annual View)" ya "Avg_Basket_Cost";;
      emit (Caption "Although this shows monthly averages, the annual trend reveals steady cost increases — indicating a sustained rise in essential food prices.");;
      emit (Subheader "Year-over-Year % Change (Based on Avg Monthly)");;
      avg ← get_column yearly_avg "Avg_Basket_Cost";
      set_column yearly_avg "YoY Change (%)" (times100 (pct_change fm 1 avg));;
      ya ← read yearly_avg;
      bar_chart "Year-over-Year % Change in Avg Basket Cost" (dropna ya) "YoY Change (%)";;
      emit (Caption "Sharp jumps (e.g. 2022–2023) highlight how had inflationary spikes hit household food budgets in recent years.");;
      emit (Subheader "Total Annual Basket Cost (€ per Year)");;
      rows ← get_afford (afford g);
      yearly_total ← alloc (year_frame "Date" "Basket_Cost_Euro" (yearly_total rows));
      set_columns yearly_total ["Year"; "Total_Basket_Cost"];;
      yt ← read yearly_total;
      bar_chart "Total Basket Cost Spent per Year (€)" yt "Total_Basket_Cost";;
      emit (Caption "Total yearly food spending climbed from €3,265.41 in 2014 to €3,688.87 in 2024 — widening the affordability gap, especially for low-income families.")
  end;;
  emit (Subheader "% of Income Spent on Food Basket");;
  a ← read (afford g);
  line_chart "Affordability Ratio Over Time" a "Affordability_Ratio";;
  emit (Caption "In 2024, households spent an average of just **7.3%** of income on food — a drop from 9% in 2014.");;
  emit (Subheader "Affordability Index (2014 = 100)");;
  match view_type inp with
  | Monthly =>
      a ← read (afford g);
      line_chart "Affordability Index (Monthly)" a "Affordability_Index";;
      emit (Caption "The Affordability Index peaked in **Jan 2014 (102.38)**, but has since dropped to an average of **79.17** in 2024 — indicating food is less affordable relative to income.")
  | Annual =>
      rows ← get_afford (afford g);
      annual_index ← alloc (year_frame "Date" "Affordability_Index" (annual_index rows));
      set_columns annual_index ["Year"; "Avg_Index"];;
      ai ← read annual_index;
      bar_chart "Affordability Index (Annual Avg)" ai "Avg_Index"
  end;;
  emit (Markdown "### Summary Insights");;
  emit (Info "Over the past 10 years, the cost of a healthy food basket increased by **13%**, but affordability has improved due to stronger income growth.").

(** ** The view router *)

Inductive routine :=
| RenderHome
| RenderItemLevel
| RenderCategoryLevel
| RenderAffordability.

(** The if/elif chain at the end of the script: the routine it calls for a
    value of [view], if any. *)
Definition route (view : string) : option routine :=
  if decide (view = "Project Overview") then Some RenderHome
  else if decide (view = "Item-Level Analysis") then Some RenderItemLevel
  else if decide (view = "Category-Level Analysis") then Some RenderCategoryLevel
  else if decide (view = "Affordability Overview") then Some RenderAffordability
  else None.

Definition render (r : routine) (g : Globals) (fm : fill_method)
    (sq : Qc → Qc) (inp : Inputs) : M unit :=
  match r with
  | RenderHome => render_home
  | RenderItemLevel => render_item_level g sq inp
  | RenderCategoryLevel => render_Category_level_Analysis g fm inp
  | RenderAffordability => render_affordability g fm inp
  end.

Definition router (view : string) (g : Globals) (fm : fill_method)
    (sq : Qc → Qc) (inp : Inputs) : M unit :=
  match route view with
  | Some r => render r g fm sq inp
  | None => mret ()
  end.

(** The options of the navigation selector, in the order of the script. *)
Definition views : list string :=
  ["Project Overview"; "Affordability Overview"; "Item-Level Analysis";
   "Category-Level Analysis"].

(** One run of the script, top to bottom. *)
Definition main (a : list Afford.row) (f : list Food.row)
    (i t : list (list string)) (fm : fill_method) (sq : Qc → Qc)
    (view_choice : nat) (inp : Inputs) : M unit :=
  emit (Title "Food Affordability in Ireland (2014–2024)");;
  emit (Markdown "---");;
  g ← load a f i t;
  emit (Header "Navigation");;
  emit (SelectboxW "Choose Analysis Level" views);;
  let view := default "" (selectbox views view_choice) in
  router view g fm sq inp;;
  emit (Markdown "---");;
  emit (Caption "Created using Streamlit & Plotly | Data: CSO, FAO, SafeFood, HSE").

Definition initial : State := {| heap := []; page := [] |}.
(** The entries of the volatility ranking without a standard deviation,
    in item order: the part [sort_values] moves to the end. *)
Definition undefined_std (sq : Qc → Qc) (food : list Food.row) : LSeries string :=
  filter (λ e, isna e.2) (by_item (agg_std sq) food).

(** ** The frames behind the affordability charts, as functions of the
    loaded table *)

(** [afford] as the object [pd.read_csv] builds: no added column. *)
Definition afford_rows (a : list Afford.row) : list (Afford.row * Series) :=
  (λ r, (r, [])) <$> a.

(** [monthly_yoy] after line 272: the copy of [afford] with the column
    [Monthly_YoY_%]. *)
Definition monthly_yoy (fm : fill_method) (a : list Afford.row)
    : list (Afford.row * Series) :=
  set_cells [] "Monthly_YoY_%"
    (times100 (pct_change fm 12 (Afford.Basket_Cost_Euro <$> a)))
    (afford_rows a).

(** [monthly_yoy.dropna()], the frame of the Monthly YoY chart. *)
Definition monthly_yoy_charted (fm : fill_method) (a : list Afford.row)
    : list (Afford.row * Series) :=
  dropna_rows afford_floats (monthly_yoy fm a).

(** The rows of a per-year aggregate after [reset_index]: the year and one
    float cell. *)
Definition year_rows_of (s : LSeries Z) : list (Z * Series) :=
  (λ e, (e.1, [e.2])) <$> s.

(** [yearly_avg] after line 305: Year, Avg_Basket_Cost and YoY Change (%). *)
Definition yearly_avg_yoy (fm : fill_method) (a : list Afford.row)
    : list (Z * Series) :=
  let avg := yearly_avg a in
  set_cells ["Avg_Basket_Cost"] "YoY Change (%)"
    (times100 (pct_change fm 1 (avg.*2)))
    (year_rows_of avg).

(** The points a chart reads from rows: x from the key part, y from the
    [j]-th added column. *)
Definition cell_points {A} (x : A → xval) (j : nat) (rows : list (A * Series))
    : list point :=
  xy_points ((λ r, x r.1) <$> rows) ((λ r, default NaN (r.2 !! j)) <$> rows).

(** ** Observations on a page *)

Definition is_table (w : widget) : bool :=
  match w with Table _ _ => true | _ => false end.

(** The tables shown on a page, in page order. *)
Definition tables_of (p : list widget) : list widget :=
  filter (λ w, is_table w) p.

(** The state after the four [pd.read_csv] calls of a run. *)
Definition loaded (a : list Afford.row) (f : list Food.row)
    (i t : list (list string)) : State :=
  {| heap := [AffordFrame [] (afford_rows a); FoodFrame f; RawFrame i; RawFrame t];
     page := [] |}.

Definition globals : Globals := {| afford := 0; food := 1; items := 2; tags := 3 |}.

(** ** Whole-number cells

    Sums of whole numbers are exact in float64 as long as the magnitudes
    stay below 2^53, so what is said about them below does not rest on
    leaving rounding out of the model. *)

(** A cell holding a whole number, or a missing cell. *)
Definition int_cell (z : option Z) : float64 :=
  match z with Some n => of_Z n | None => NaN end.

(** Sum, sum of magnitudes and number of the present cells. *)
Definition int_total (zs : list (option Z)) : Z := foldr Z.add 0%Z (omap id zs).
Definition int_abs_total (zs : list (option Z)) : Z :=
  foldr Z.add 0%Z (Z.abs <$> omap id zs).
Definition int_count (zs : list (option Z)) : nat := length (omap id zs).
(** ** Sample tables used in the examples below *)

(** A month of the affordability table with a basket cost of [cost] euro. *)
Definition month_row (y m : Z) (cost : Z) : Afford.row :=
  {| Afford.Date := {| year := y; month := m; day := 1 |};
     Afford.Basket_Cost_Euro := of_Z cost;
     Afford.Affordability_Ratio := of_Z 8;
     Afford.Affordability_Index := of_Z 100 |}.

Definition year_rows (y : Z) (cost : Z) : list Afford.row :=
  (λ m, month_row y (Z.of_nat m) cost) <$> seq 1 12.

(** 24 months, 100 euro each. *)
Definition flat_24 : list Afford.row := year_rows 2020 100 ++ year_rows 2021 100.

(** The months of year [y] with the given basket costs, from January on. *)
Definition months_of (y : Z) (costs : list Z) : list Afford.row :=
  zip_with (λ m c, month_row y (Z.of_nat m) c) (seq 1 12) costs.

(** 24 months with a different cost in every month: 1200 euro over 2020
    (100 on average), 1800 euro over 2021 (150 on average). *)
Definition varied_24 : list Afford.row :=
  months_of 2020 [94; 95; 96; 97; 98; 99; 101; 102; 103; 104; 105; 106]%Z ++
  months_of 2021 [144; 145; 146; 147; 148; 149; 151; 152; 153; 154; 155; 156]%Z.

(** 24 months: 100 euro in each month of 2020, 110 in each month of 2021. *)
Definition step_24 : list Afford.row := year_rows 2020 100 ++ year_rows 2021 110.

Definition food_row (item date : string) (price : Z) (tag : string) : Food.row :=
  {| Food.Item := item; Food.Date := date;
     Food.Price_per_kg_or_litre := of_Z price; Food.Tag := tag |}.

(** Six items with one observation each. *)
Definition six_singles : list Food.row :=
  (λ i, food_row i "2014-01" 2 "Neutral") <$> ["a"; "b"; "c"; "d"; "e"; "f"].

(** Eleven items, two observations each. *)
Definition eleven_items : list Food.row :=
  i ← ["a"; "b"; "c"; "d"; "e"; "f"; "g"; "h"; "i"; "j"; "k"];
  [food_row i "2014-01" 2 "Neutral"; food_row i "2014-02" 3 "Neutral"].

(** One item over 14 months at a constant price, as a pivoted table. *)
Definition flat_pivot : Pivot :=
  {| pv_index := ["2014-01"; "2014-02"; "2014-03"; "2014-04"; "2014-05";
                  "2014-06"; "2014-07"; "2014-08"; "2014-09"; "2014-10";
                  "2014-11"; "2014-12"; "2015-01"; "2015-02"];
     pv_columns := [("Healthy", replicate 14 (of_Z 5))] |}.

(** ** Frame reasoning for programs over the store

    [local_to n0 m Q]: started with at least [n0] objects in the store, [m]
    leaves the first [n0] objects as they are, never shrinks the store, and
    returns a value satisfying [Q] when it returns one. *)

Definition preserves (n0 : nat) (s s' : State) : Prop :=
  take n0 (heap s') = take n0 (heap s) ∧ n0 ≤ length (heap s').

Definition local_to {A} (n0 : nat) (m : M A) (Q : A → Prop) : Prop :=
  ∀ s, n0 ≤ length (heap s) →
    preserves n0 s (m s).2 ∧ ∀ a, (m s).1 = inr a → Q a.

Definition any {A} : A → Prop := λ _, True.


(** ** Predicates used to state further properties *)

(** A cell holding a rational number: neither NaN nor an infinity. *)
Definition is_fin (x : float64) : bool :=
  match x with Fin _ => true | _ => false end.

(** A row of the affordability table whose three cells are numbers and
    whose basket cost is not zero. *)
Definition complete_row (r : Afford.row) : Prop :=
  (∃ b, Afford.Basket_Cost_Euro r = Fin b ∧ b ≠ 0%Qc) ∧
  is_fin (Afford.Affordability_Ratio r) ∧
  is_fin (Afford.Affordability_Index r).

(** Two food items: Milk with three monthly prices, Flour with one. *)
Definition milk_flour : list Food.row :=
  [ food_row "Milk" "2014-01" 1 "Neutral";
    food_row "Flour" "2014-01" 5 "Neutral";
    food_row "Milk" "2014-02" 3 "Neutral";
    food_row "Milk" "2014-03" 2 "Neutral" ].

(** The number of data rows of a table widget. *)
Definition table_rows (w : widget) : nat :=
  match w with Table _ rows => length rows | _ => 0 end.

(** The number a cell adds to a sum that skips missing cells. *)
Definition qval (x : float64) : Qc :=
  match x with Fin q => q | _ => 0%Qc end.

(** The exact sum of the numbers of a series. *)
Definition qtotal (xs : Series) : Qc := foldr Qcplus 0%Qc (qval <$> xs).

(** A cell that is not an infinity. *)
Definition not_inf (x : float64) : Prop := x ≠ PInf ∧ x ≠ NInf.
(** ** Basic facts on cells and series *)

Lemma Qc_of_Z_100_ne0 : Qc_of_Z 100 ≠ 0%Qc.
Proof. intros H. apply (f_equal this) in H. discriminate H. Qed.

Lemma fdiv_self (c : Qc) : c ≠ 0%Qc → fdiv (Fin c) (Fin c) = Fin 1%Qc.
Proof.
  intros Hc. unfold fdiv. destruct (decide (c = 0%Qc)) as [->|_]; [done|].
  f_equal. unfold Qcdiv. by apply Qcmult_inv_r.
Qed.

Lemma fsub_self_fin (c : Qc) : fsub (Fin c) (Fin c) = Fin 0%Qc.
Proof. unfold fsub; simpl. f_equal. ring. Qed.

Lemma fmul_zero_fin (c : Qc) : fmul (Fin 0%Qc) (Fin c) = Fin 0%Qc.
Proof. simpl. f_equal. ring. Qed.

Lemma length_ffill_from last s : length (ffill_from last s) = length s.
Proof.
  revert last. induction s as [|x s IH]; intros last; [done|].
  simpl. destruct (isna x); simpl; by rewrite IH.
Qed.

Lemma length_fill fm s : length (fill fm s) = length s.
Proof. destruct fm; [apply length_ffill_from|done]. Qed.

Lemma length_shift n s : length (shift n s) = length s.
Proof.
  unfold shift. rewrite length_take, length_app, length_replicate. lia.
Qed.

Lemma length_pct_change fm n s : length (pct_change fm n s) = length s.
Proof.
  unfold pct_change. rewrite length_zip_with, length_shift, length_fill. lia.
Qed.

Lemma length_times100 s : length (times100 s) = length s.
Proof. unfold times100. by rewrite length_fmap. Qed.

Lemma shift_lookup_lt n s i :
  i < n → i < length s → shift n s !! i = Some NaN.
Proof.
  intros Hn Hs. unfold shift. rewrite lookup_take_lt by done.
  rewrite lookup_app_l by (rewrite length_replicate; lia).
  by apply lookup_replicate_2.
Qed.

Lemma shift_lookup_ge n s i :
  n ≤ i → i < length s → shift n s !! i = s !! (i - n).
Proof.
  intros Hn Hs. unfold shift. rewrite lookup_take_lt by done.
  rewrite lookup_app_r by (rewrite length_replicate; lia).
  by rewrite length_replicate.
Qed.

Lemma fdiv_nan_r x : fdiv x NaN = NaN.
Proof. by destruct x. Qed.

Lemma fsub_nan_l y : fsub NaN y = NaN.
Proof. done. Qed.

Lemma fmul_nan_l y : fmul NaN y = NaN.
Proof. done. Qed.

(** The first [n] entries of a lag-[n] percentage change are NaN. *)
Lemma pct_change_lookup_lt fm n s i :
  i < n → i < length s → pct_change fm n s !! i = Some NaN.
Proof.
  intros Hn Hs. unfold pct_change.
  destruct (lookup_lt_is_Some_2 (fill fm s) i) as [a Ha];
    [by rewrite length_fill|].
  rewrite lookup_zip_with, Ha; simpl.
  rewrite shift_lookup_lt by (by rewrite ?length_fill); simpl.
  by rewrite fdiv_nan_r.
Qed.

Lemma pct_change_lookup_ge fm n s i a b :
  n ≤ i → fill fm s !! i = Some a → fill fm s !! (i - n) = Some b →
  pct_change fm n s !! i = Some (fsub (fdiv a b) (Fin 1%Qc)).
Proof.
  intros Hn Ha Hb. unfold pct_change.
  rewrite lookup_zip_with, Ha; simpl.
  rewrite shift_lookup_ge, Hb; [done..|].
  by eapply lookup_lt_Some.
Qed.


(** ** The view router *)

(** C1.  Each of the four selector labels makes the router run exactly the
    render routine of that label; [route] names at most one routine for a
    value, and for every value outside the four labels it names none and
    the router does nothing at all (no default branch). *)
Theorem C1_router_dispatch (view : string) (g : Globals) (fm : fill_method)
    (sq : Qc → Qc) (inp : Inputs) :
  (view = "Project Overview" →
     route view = Some RenderHome ∧
     router view g fm sq inp = render_home) ∧
  (view = "Item-Level Analysis" →
     route view = Some RenderItemLevel ∧
     router view g fm sq inp = render_item_level g sq inp) ∧
  (view = "Category-Level Analysis" →
     route view = Some RenderCategoryLevel ∧
     router view g fm sq inp = render_Category_level_Analysis g fm inp) ∧
  (view = "Affordability Overview" →
     route view = Some RenderAffordability ∧
     router view g fm sq inp = render_affordability g fm inp) ∧
  (view ∉ views →
     route view = None ∧ ∀ s, router view g fm sq inp s = (inr (), s)).
Proof.
  split_and!; try (intros ->; split; reflexivity).
  intros Hout.
  assert (route view = None) as Hnone.
  { unfold route. repeat case_decide; subst; try done;
      exfalso; apply Hout; unfold views; rewrite !elem_of_cons; tauto. }
  split; [done|]. intros s. unfold router. by rewrite Hnone.
Qed.

Lemma C1_router_dispatch_witness :
  route "Project Overview" = Some RenderHome ∧
  route "Settings" = None ∧
  router "Settings" {| afford := 0; food := 1; items := 2; tags := 3 |}
    Pad (λ q, q)
    {| item_choice := 0; metric_selected := Mean; view_type := Monthly |}
    initial = (inr (), initial).
Proof.
  pose proof (C1_router_dispatch "Project Overview"
    {| afford := 0; food := 1; items := 2; tags := 3 |} Pad (λ q, q)
    {| item_choice := 0; metric_selected := Mean; view_type := Monthly |})
    as (H1 & _).
  pose proof (C1_router_dispatch "Settings"
    {| afford := 0; food := 1; items := 2; tags := 3 |} Pad (λ q, q)
    {| item_choice := 0; metric_selected := Mean; view_type := Monthly |})
    as (_ & _ & _ & _ & H5).
  destruct (H1 eq_refl) as [Hr _].
  destruct H5 as [Hn Hs].
  - unfold views. intros Hin. repeat (apply elem_of_cons in Hin as [Hin|Hin]; [discriminate Hin|]).
    by apply elem_of_nil in Hin.
  - split; [exact Hr|]. split; [exact Hn|]. apply Hs.
Defined.

(** ** Year-over-year change in the Category-Level routine *)

Lemma fill_constant fm c (col : Series) :
  Forall (λ x, x = c) col → fill fm col = col.
Proof.
  destruct fm; [|done]. unfold fill, ffill.
  intros Hc. destruct c.
  1-3: generalize NaN; induction Hc as [|x l -> _ IH]; intros last; simpl;
       [done|by rewrite IH].
  induction Hc as [|x l -> _ IH]; simpl; [done|by rewrite IH].
Qed.

Lemma yoy_lookup_lt fm (col : Series) i :
  i < 12 → i < length col →
  times100 (pct_change fm 12 col) !! i = Some NaN.
Proof.
  intros Hi Hl. unfold times100.
  rewrite list_lookup_fmap, pct_change_lookup_lt by done. done.
Qed.

(** A flat column: every YoY cell is NaN or exactly 0. *)
Lemma yoy_constant fm c (col : Series) i v :
  Forall (λ x, x = c) col →
  times100 (pct_change fm 12 col) !! i = Some v →
  v = NaN ∨ v = Fin 0%Qc.
Proof.
  intros Hc Hv.
  assert (i < length col) as Hl.
  { apply lookup_lt_Some in Hv.
    by rewrite length_times100, length_pct_change in Hv. }
  destruct (decide (i < 12)) as [Hi|Hi].
  { rewrite yoy_lookup_lt in Hv by done. left. congruence. }
  pose proof (fill_constant fm c col Hc) as Hfill.
  rewrite Forall_lookup in Hc.
  destruct (lookup_lt_is_Some_2 col i Hl) as [a Ha].
  destruct (lookup_lt_is_Some_2 col (i - 12)) as [b Hb]; [lia|].
  pose proof (Hc _ _ Ha) as ->. pose proof (Hc _ _ Hb) as ->.
  unfold times100 in Hv. rewrite list_lookup_fmap in Hv.
  rewrite (pct_change_lookup_ge fm 12 col i c c) in Hv
    by (rewrite ?Hfill; first [lia|done]).
  cbn [fmap option_fmap option_map] in Hv. injection Hv as <-.
  destruct c as [q| | |]; try (left; reflexivity).
  destruct (decide (q = 0%Qc)) as [->|Hq].
  - left. unfold fdiv. by rewrite decide_True.
  - right. rewrite fdiv_self by done. rewrite fsub_self_fin.
    unfold of_Z. apply fmul_zero_fin.
Qed.

Lemma yoy_constant_defined fm (q : Qc) (col : Series) i :
  q ≠ 0%Qc → Forall (λ x, x = Fin q) col →
  12 ≤ i → i < length col →
  times100 (pct_change fm 12 col) !! i = Some (Fin 0%Qc).
Proof.
  intros Hq Hc Hi Hl.
  pose proof (fill_constant fm (Fin q) col Hc) as Hfill.
  rewrite Forall_lookup in Hc.
  destruct (lookup_lt_is_Some_2 col i Hl) as [a Ha].
  destruct (lookup_lt_is_Some_2 col (i - 12)) as [b Hb]; [lia|].
  pose proof (Hc _ _ Ha) as ->. pose proof (Hc _ _ Hb) as ->.
  unfold times100. rewrite list_lookup_fmap.
  rewrite (pct_change_lookup_ge fm 12 col i (Fin q) (Fin q))
    by (rewrite ?Hfill; first [lia|done]).
  cbn [fmap option_fmap option_map].
  rewrite fdiv_self by done. rewrite fsub_self_fin.
  unfold of_Z. by rewrite fmul_zero_fin.
Qed.

(** C2.  Every Tag column of [yoy = pivot.pct_change(periods=12) * 100]
    keeps the length of the pivoted column and is NaN (neither 0 nor an
    error) on its first 12 periods.  When the pivoted column is flat, every
    cell of the YoY column that is defined is exactly 0; and when the flat
    value is a finite non-zero price, every period from the 13th on is
    defined (so it is 0). *)
Theorem C2_category_yoy (fm : fill_method) (p : Pivot) (t : string)
    (y : Series) :
  (t, y) ∈ pv_columns (yoy_of fm p) →
  ∃ col, (t, col) ∈ pv_columns p ∧
    length y = length col ∧
    (∀ i, i < 12 → i < length col → y !! i = Some NaN) ∧
    (∀ c, Forall (λ x, x = c) col →
       (∀ i v, y !! i = Some v → v = NaN ∨ v = Fin 0%Qc) ∧
       (∀ q, c = Fin q → q ≠ 0%Qc →
          ∀ i, 12 ≤ i → i < length col → y !! i = Some (Fin 0%Qc))).
Proof.
  unfold yoy_of; simpl. intros Hin.
  apply list_elem_of_fmap in Hin as ([t' col] & [= -> ->] & Hin).
  exists col; simpl. split; [done|].
  split; [by rewrite length_times100, length_pct_change|].
  split; [intros i; apply yoy_lookup_lt|].
  intros c Hc. split.
  - intros i v. by apply (yoy_constant fm c).
  - intros q -> Hq i. by apply (yoy_constant_defined fm q).
Qed.

Lemma C2_category_yoy_witness :
  ∃ col, ("Healthy", col) ∈ pv_columns flat_pivot ∧
    length (times100 (pct_change Pad 12 (replicate 14 (of_Z 5)))) = length col ∧
    (∀ i, i < 12 → i < length col →
       times100 (pct_change Pad 12 (replicate 14 (of_Z 5))) !! i = Some NaN) ∧
    (∀ c, Forall (λ x, x = c) col →
       (∀ i v, times100 (pct_change Pad 12 (replicate 14 (of_Z 5))) !! i = Some v →
          v = NaN ∨ v = Fin 0%Qc) ∧
       (∀ q, c = Fin q → q ≠ 0%Qc →
          ∀ i, 12 ≤ i → i < length col →
            times100 (pct_change Pad 12 (replicate 14 (of_Z 5))) !! i =
              Some (Fin 0%Qc))).
Proof.
  apply (C2_category_yoy Pad flat_pivot "Healthy").
  unfold yoy_of, flat_pivot. simpl. apply list_elem_of_here.
Defined.

(** ** unique, sort_by and groupby *)

Section list_facts.
Context {A : Type}.

Lemma elem_of_unique `{EqDecision A} (l : list A) x : x ∈ unique l ↔ x ∈ l.
Proof.
  induction l as [|y l IH]; simpl; [done|].
  rewrite !elem_of_cons, list_elem_of_filter, IH.
  destruct (decide (x = y)); tauto.
Qed.

Lemma NoDup_unique `{EqDecision A} (l : list A) : NoDup (unique l).
Proof.
  induction l as [|y l IH]; simpl; [constructor|].
  constructor.
  - rewrite list_elem_of_filter. tauto.
  - by apply NoDup_filter.
Qed.

Lemma insert_by_Permutation (leb : A → A → bool) x l :
  insert_by leb x l ≡ₚ x :: l.
Proof.
  induction l as [|y l IH]; simpl; [done|].
  destruct (leb x y); [done|].
  rewrite IH. apply Permutation_swap.
Qed.

Lemma sort_by_Permutation (leb : A → A → bool) l : sort_by leb l ≡ₚ l.
Proof.
  induction l as [|x l IH]; simpl; [done|].
  by rewrite insert_by_Permutation, IH.
Qed.

Lemma length_sort_by (leb : A → A → bool) l :
  length (sort_by leb l) = length l.
Proof. by rewrite sort_by_Permutation. Qed.

Lemma elem_of_sort_by (leb : A → A → bool) l x : x ∈ sort_by leb l ↔ x ∈ l.
Proof. by rewrite sort_by_Permutation. Qed.

Lemma NoDup_sort_by (leb : A → A → bool) l : NoDup (sort_by leb l) ↔ NoDup l.
Proof. by rewrite sort_by_Permutation. Qed.

(** A sorted list whose elements all satisfy [P] comes from inserting
    elements that satisfy [P]. *)
Lemma Forall_sort_by (leb : A → A → bool) (P : A → Prop) l :
  Forall P l → Forall P (sort_by leb l).
Proof. by rewrite sort_by_Permutation. Qed.

Lemma filter_all (P : A → Prop) `{∀ x, Decision (P x)} l :
  Forall P l → filter P l = l.
Proof.
  induction 1 as [|x l Hx _ IH]; [done|].
  rewrite filter_cons_True by done. by rewrite IH.
Qed.

Lemma filter_none (P : A → Prop) `{∀ x, Decision (P x)} l :
  Forall (λ x, ¬ P x) l → filter P l = [].
Proof.
  induction 1 as [|x l Hx _ IH]; [done|].
  by rewrite filter_cons_False.
Qed.

Lemma head_tail_disjoint (l : list A) n x :
  NoDup l → 2 * n ≤ length l → x ∈ head_n n l → x ∉ tail_n n l.
Proof.
  unfold head_n, tail_n. intros Hnd Hlen Hh Ht.
  rewrite <- (take_drop n l) in Hnd.
  apply NoDup_app in Hnd as (_ & Hdis & _).
  apply (Hdis x Hh).
  apply list_elem_of_lookup in Ht as [i Hi].
  rewrite lookup_drop in Hi.
  apply list_elem_of_lookup. exists (length l - n + i - n).
  rewrite lookup_drop. rewrite <- Hi. f_equal. lia.
Qed.

Lemma head_tail_short (l : list A) n :
  length l ≤ n → head_n n l = l ∧ tail_n n l = l.
Proof.
  unfold head_n, tail_n. intros Hl. split.
  - by apply take_ge.
  - replace (length l - n) with 0 by lia. done.
Qed.
End list_facts.

Section groupby_facts.
Context {A K : Type} `{EqDecision K}.
Variables (kleb : K → K → bool) (key : A → K).

Lemma groupby_keys (rows : list A) :
  (groupby kleb key rows).*1 = sort_by kleb (unique (key <$> rows)).
Proof.
  unfold groupby. rewrite <- list_fmap_compose.
  apply list_fmap_id.
Qed.

Lemma NoDup_groupby_keys (rows : list A) :
  NoDup ((groupby kleb key rows).*1).
Proof. rewrite groupby_keys, NoDup_sort_by. apply NoDup_unique. Qed.

Lemma length_groupby (rows : list A) :
  length (groupby kleb key rows) = length (unique (key <$> rows)).
Proof. unfold groupby. by rewrite length_fmap, length_sort_by. Qed.

Lemma elem_of_groupby (rows : list A) k g :
  (k, g) ∈ groupby kleb key rows ↔
  k ∈ key <$> rows ∧ g = filter (λ r, key r = k) rows.
Proof.
  unfold groupby. rewrite list_elem_of_fmap. split.
  - intros (k' & [= -> ->] & Hin).
    by rewrite elem_of_sort_by, elem_of_unique in Hin.
  - intros [Hin ->]. exists k. split; [done|].
    by rewrite elem_of_sort_by, elem_of_unique.
Qed.
End groupby_facts.

Lemma filter_bool_split {A} (f : A → bool) (l : list A) :
  filter (λ x, negb (f x)) l ++ filter (λ x, f x) l ≡ₚ l.
Proof.
  induction l as [|a l IH]; [done|].
  rewrite !filter_cons. destruct (f a); simpl.
  - by rewrite <- Permutation_middle, IH.
  - by rewrite IH.
Qed.

(** [sort_values] only reorders the entries. *)
Lemma sort_values_desc_Permutation {K} (s : LSeries K) :
  sort_values_desc s ≡ₚ s.
Proof.
  unfold sort_values_desc. rewrite sort_by_Permutation.
  apply (filter_bool_split (λ e : K * float64, isna e.2)).
Qed.

(** ** Item-level routine *)

(** C4.  Filtering the food table by an item label keeps exactly the rows
    carrying that label, in table order and unaltered: every (Date, Price)
    point occurs in the filtered series as many times as there are source
    rows with that label and that point, and the series is not empty when
    the label is present in the table. *)
Theorem C4_item_filter_roundtrip (food : list Food.row) (item : string)
    (p : string * float64) :
  let data := item_data food (Some item) in
  length (filter (λ q, q = p) (item_points data)) =
    length (filter (λ r, Food.Item r = item ∧
                         (Food.Date r, Food.Price_per_kg_or_litre r) = p) food) ∧
  data `sublist_of` food ∧
  Forall (λ r, Food.Item r = item) data ∧
  (item ∈ Food.Item <$> food → data ≠ []).
Proof.
  unfold item_data, item_points. split_and!.
  - induction food as [|r food IH]; [done|].
    rewrite (filter_cons (λ r, Some (Food.Item r) = Some item)).
    rewrite (filter_cons (λ r, Food.Item r = item ∧ _)).
    destruct (decide (Food.Item r = item)) as [Hi|Hi].
    + rewrite decide_True by congruence. rewrite fmap_cons, filter_cons.
      destruct (decide ((Food.Date r, Food.Price_per_kg_or_litre r) = p)) as [Hp|Hp].
      * rewrite decide_True by done. simpl. by rewrite IH.
      * rewrite decide_False by tauto. done.
    + rewrite decide_False by congruence. rewrite decide_False by tauto. done.
  - apply sublist_filter.
  - apply Forall_forall. intros r Hr.
    apply list_elem_of_filter in Hr as [Hr _]. congruence.
  - intros Hin Hnil.
    apply list_elem_of_fmap in Hin as (r & -> & Hr).
    eapply (filter_nil_not_elem_of _ _ r); [exact Hnil|done|done].
Qed.

Lemma C4_item_filter_roundtrip_witness :
  item_data
    [ {| Food.Item := "Milk"; Food.Date := "2014-01";
         Food.Price_per_kg_or_litre := NaN; Food.Tag := "Neutral" |};
      {| Food.Item := "Flour"; Food.Date := "2014-01";
         Food.Price_per_kg_or_litre := PInf; Food.Tag := "Neutral" |} ]
    (Some "Milk") ≠ [].
Proof.
  apply (C4_item_filter_roundtrip _ "Milk" ("2014-01", NaN)).
  rewrite !fmap_cons. apply list_elem_of_here.
Defined.

(** The ranking of the items by an aggregate of their prices. *)
Lemma rank_keys_Permutation (agg : Series → float64) (food : list Food.row) :
  (sort_values_desc (by_item agg food)).*1 ≡ₚ unique (Food.Item <$> food).
Proof.
  rewrite sort_values_desc_Permutation. unfold by_item.
  rewrite <- list_fmap_compose.
  change ((groupby String.leb Food.Item food).*1 ≡ₚ unique (Food.Item <$> food)).
  by rewrite groupby_keys, sort_by_Permutation.
Qed.

Lemma rank_keys_NoDup agg food :
  NoDup ((sort_values_desc (by_item agg food)).*1).
Proof. rewrite rank_keys_Permutation. apply NoDup_unique. Qed.

Lemma rank_length agg food :
  length (sort_values_desc (by_item agg food)) =
  length (unique (Food.Item <$> food)).
Proof.
  rewrite <- (length_fmap fst). by rewrite rank_keys_Permutation.
Qed.

Lemma rank_disjoint agg food k :
  10 ≤ length (unique (Food.Item <$> food)) →
  k ∈ (head_n 5 (sort_values_desc (by_item agg food))).*1 →
  k ∉ (tail_n 5 (sort_values_desc (by_item agg food))).*1.
Proof.
  intros Hn. unfold head_n, tail_n.
  rewrite fmap_take, fmap_drop.
  rewrite <- (length_fmap fst (sort_values_desc _)).
  apply (head_tail_disjoint _ 5); [apply rank_keys_NoDup|].
  rewrite length_fmap, rank_length. lia.
Qed.

Lemma rank_single agg food :
  length (unique (Food.Item <$> food)) = 1 →
  head_n 5 (sort_values_desc (by_item agg food)) =
    tail_n 5 (sort_values_desc (by_item agg food)) ∧
  length (head_n 5 (sort_values_desc (by_item agg food))) = 1.
Proof.
  intros Hn.
  destruct (head_tail_short (sort_values_desc (by_item agg food)) 5) as [-> ->].
  - rewrite rank_length. lia.
  - split; [done|]. by rewrite rank_length.
Qed.

Lemma rank_extract_length agg food :
  5 ≤ length (unique (Food.Item <$> food)) →
  length (head_n 5 (sort_values_desc (by_item agg food))) = 5 ∧
  length (tail_n 5 (sort_values_desc (by_item agg food))) = 5.
Proof.
  intros Hn. unfold head_n, tail_n.
  rewrite length_take, length_drop, !rank_length. lia.
Qed.

(** C5.  For the volatility ranking and for the price ranking alike: with
    more than 10 distinct items the top-5 and bottom-5 extracts have five
    rows each and share no item; with exactly one distinct item both
    extracts are the same one-row table. *)
Theorem C5_top5_bottom5 (sq : Qc → Qc) (food : list Food.row) :
  let n := length (unique (Food.Item <$> food)) in
  (10 < n →
     length (top5_most_vol sq food) = 5 ∧ length (top5_least_vol sq food) = 5 ∧
     length (top5_expensive food) = 5 ∧ length (top5_cheap food) = 5 ∧
     (∀ k, k ∈ (top5_most_vol sq food).*1 → k ∉ (top5_least_vol sq food).*1) ∧
     (∀ k, k ∈ (top5_expensive food).*1 → k ∉ (top5_cheap food).*1)) ∧
  (n = 1 →
     top5_most_vol sq food = top5_least_vol sq food ∧
     length (top5_most_vol sq food) = 1 ∧
     top5_expensive food = top5_cheap food ∧
     length (top5_expensive food) = 1).
Proof.
  intros n. unfold top5_most_vol, top5_least_vol, top5_expensive, top5_cheap,
    volatility, avg_price. split.
  - intros Hn.
    destruct (rank_extract_length (agg_std sq) food) as [? ?]; [fold n; lia|].
    destruct (rank_extract_length agg_mean food) as [? ?]; [fold n; lia|].
    split_and!; try done.
    + intros k. apply rank_disjoint. fold n. lia.
    + intros k. apply rank_disjoint. fold n. lia.
  - intros Hn.
    destruct (rank_single (agg_std sq) food Hn) as [? ?].
    destruct (rank_single agg_mean food Hn) as [? ?].
    done.
Qed.

Lemma C5_top5_bottom5_witness :
  (∀ k, k ∈ (top5_most_vol (λ q, q) eleven_items).*1 →
        k ∉ (top5_least_vol (λ q, q) eleven_items).*1) ∧
  top5_expensive [food_row "Milk" "2014-01" 1 "Neutral"] =
    top5_cheap [food_row "Milk" "2014-01" 1 "Neutral"].
Proof.
  split.
  - destruct (C5_top5_bottom5 (λ q, q) eleven_items) as [Hmany _].
    apply Hmany. vm_compute. lia.
  - destruct (C5_top5_bottom5 (λ q, q) [food_row "Milk" "2014-01" 1 "Neutral"])
      as [_ Hone].
    apply Hone. vm_compute. reflexivity.
Defined.

Lemma elem_of_by_item agg food k v :
  (k, v) ∈ by_item agg food ↔
  k ∈ Food.Item <$> food ∧
  v = agg (Food.Price_per_kg_or_litre <$> filter (λ r, Food.Item r = k) food).
Proof.
  unfold by_item. rewrite list_elem_of_fmap. split.
  - intros ([k' g] & [= -> ->] & Hin). simpl.
    apply elem_of_groupby in Hin as [Hk ->]. done.
  - intros [Hk ->]. eexists (k, _). split; [done|].
    by apply elem_of_groupby.
Qed.

Lemma count_le_length xs : count xs ≤ length xs.
Proof. apply length_filter. Qed.

(** With at most one observation the sample standard deviation is NaN. *)
Lemma agg_std_single sq xs : length xs ≤ 1 → agg_std sq xs = NaN.
Proof.
  intros Hl. unfold agg_std, agg_var.
  rewrite decide_True; [done|].
  pose proof (count_le_length xs). lia.
Qed.

Lemma tail_n_app_r {A} (l k : list A) n x :
  length k ≤ n → x ∈ k → x ∈ tail_n n (l ++ k).
Proof.
  intros Hk Hx. unfold tail_n.
  rewrite length_app, drop_app_le by lia.
  apply elem_of_app. by right.
Qed.

(** C9 (as amended).  An item with exactly one row in the food table has a
    NaN standard deviation; nothing is excluded and nothing raises: the
    item is an entry of the sorted volatility series, which consists of the
    entries with a defined value followed by the entries with NaN, the
    item among the latter; and it is a row of the bottom-5 table, with NaN
    as its Std Dev, whenever at most five items have a NaN standard
    deviation. *)
Theorem C9_single_observation (sq : Qc → Qc) (food : list Food.row)
    (k : string) :
  length (filter (λ r, Food.Item r = k) food) = 1 →
  (k, NaN) ∈ by_item (agg_std sq) food ∧
  (∃ defined,
     volatility sq food = defined ++ undefined_std sq food ∧
     Forall (λ e, e.2 ≠ NaN) defined) ∧
  Forall (λ e, e.2 = NaN) (undefined_std sq food) ∧
  (k, NaN) ∈ undefined_std sq food ∧
  (length (undefined_std sq food) ≤ 5 → (k, NaN) ∈ top5_least_vol sq food).
Proof.
  intros Hone.
  assert ((k, NaN) ∈ by_item (agg_std sq) food) as Hin.
  { apply elem_of_by_item. split.
    - destruct (filter (λ r, Food.Item r = k) food) as [|r l] eqn:Hf;
        [discriminate Hone|].
      assert (r ∈ filter (λ r, Food.Item r = k) food) as Hr
        by (rewrite Hf; apply list_elem_of_here).
      apply list_elem_of_filter in Hr as [<- Hr].
      by apply list_elem_of_fmap_2.
    - symmetry. apply agg_std_single. rewrite length_fmap. lia. }
  assert ((k, NaN) ∈ undefined_std sq food) as Hun
    by by apply list_elem_of_filter.
  split_and!; try done.
  - eexists. split; [reflexivity|].
    apply Forall_sort_by, Forall_forall. intros e He.
    apply list_elem_of_filter in He as [He _].
    by destruct (e.2).
  - apply Forall_forall. intros e He.
    apply list_elem_of_filter in He as [He _].
    by destruct (e.2).
  - intros Hl. unfold top5_least_vol, volatility, sort_values_desc.
    by apply tail_n_app_r.
Qed.

Lemma C9_single_observation_witness :
  ("z", NaN) ∈
    top5_least_vol (λ q, q) (food_row "z" "2014-01" 4 "Healthy" :: eleven_items).
Proof.
  apply (C9_single_observation (λ q, q)
           (food_row "z" "2014-01" 4 "Healthy" :: eleven_items) "z").
  - vm_compute. reflexivity.
  - vm_compute. lia.
Defined.

(** The claim as first stated fails: with six items of one observation
    each, all six have a NaN standard deviation, the bottom-5 table holds
    the last five of them, and the first one is shown in the top-5 table
    only. *)
Lemma C9_counterexample :
  length (filter (λ r, Food.Item r = "a") six_singles) = 1 ∧
  ("a" ∉ (top5_least_vol (λ q, q) six_singles).*1) ∧
  (top5_least_vol (λ q, q) six_singles).*1 = ["b"; "c"; "d"; "e"; "f"] ∧
  (top5_most_vol (λ q, q) six_singles).*1 = ["a"; "b"; "c"; "d"; "e"].
Proof.
  split_and!.
  - vm_compute. reflexivity.
  - apply (proj1 (bool_decide_eq_false _)). vm_compute. reflexivity.
  - vm_compute. reflexivity.
  - vm_compute. reflexivity.
Qed.

(** ** Category-level routine: the pivot *)

Lemma monthly_stats_keys food :
  (λ r, (ms_Date r, ms_Tag r)) <$> monthly_stats food =
  (groupby pair_leb (λ r, (Food.Date r, Food.Tag r)) food).*1.
Proof.
  unfold monthly_stats. rewrite <- list_fmap_compose.
  apply list_fmap_ext. by intros _ [[d t] g] _.
Qed.

(** The (Date, Tag) pairs of [monthly_stats] are pairwise distinct. *)
Lemma monthly_stats_NoDup food :
  NoDup ((λ r, (ms_Date r, ms_Tag r)) <$> monthly_stats food).
Proof. rewrite monthly_stats_keys. apply NoDup_groupby_keys. Qed.

(** C10.  [pivot] raises on a table in which some (Date, Tag) pair occurs
    twice, and only then; on [monthly_stats], which comes from a groupby on
    ['Date', 'Tag'], every pair occurs once, so for every food table and
    either metric the pivot returns a table and never raises. *)
Theorem C10_pivot_never_fails (food : list Food.row) (m : metric) :
  NoDup ((λ r, (ms_Date r, ms_Tag r)) <$> monthly_stats food) ∧
  (∃ p, pivot (monthly_stats food) m = inr p) ∧
  (∀ ms e, pivot ms m = inl e ↔
     e = ValueError "Index contains duplicate entries, cannot reshape" ∧
     ¬ NoDup ((λ r, (ms_Date r, ms_Tag r)) <$> ms)).
Proof.
  split; [apply monthly_stats_NoDup|]. split.
  - unfold pivot. rewrite decide_True by apply monthly_stats_NoDup. eauto.
  - intros ms e. unfold pivot. case_decide; split.
    + discriminate.
    + tauto.
    + by intros [= <-].
    + by intros [-> _].
Qed.

(** ** Affordability routine *)

Lemma set_cells_new {A} names name col (rows : list (A * Series)) :
  name ∉ names → length col = length rows →
  set_cells names name col rows = zip_with (λ r x, (r.1, r.2 ++ [x])) rows col.
Proof.
  intros Hn Hl. unfold set_cells. rewrite resize_all_alt by done.
  apply zip_with_ext; [|done..]. intros r x. unfold set_cell.
  destruct (list_find _ names) as [[j n]|] eqn:Hf; [|done].
  apply list_find_Some in Hf as (Hj & -> & _).
  exfalso. apply Hn. by eapply list_elem_of_lookup_2.
Qed.

Lemma elem_of_by_year col agg a y v :
  (y, v) ∈ by_year col agg a ↔
  y ∈ (λ r, year (Afford.Date r)) <$> a ∧
  v = agg (col <$> filter (λ r, year (Afford.Date r) = y) a).
Proof.
  unfold by_year. rewrite list_elem_of_fmap. split.
  - intros ([k' g] & [= -> ->] & Hin). simpl.
    apply elem_of_groupby in Hin as [Hk ->]. done.
  - intros [Hk ->]. eexists (y, _). split; [done|].
    by apply elem_of_groupby.
Qed.

Lemma by_year_keys col agg a :
  (by_year col agg a).*1 =
  sort_by Z.leb (unique ((λ r, year (Afford.Date r)) <$> a)).
Proof.
  unfold by_year. rewrite <- list_fmap_compose.
  change ((groupby Z.leb (λ r, year (Afford.Date r)) a).*1 = 
          sort_by Z.leb (unique ((λ r, year (Afford.Date r)) <$> a))).
  apply groupby_keys.
Qed.

(** The percentage change of a series at lag [n], times 100, cell by cell. *)
Lemma yoy_lookup fm n (s : Series) i :
  i < length s →
  ∃ c, times100 (pct_change fm n s) !! i = Some c ∧
    (i < n → c = NaN) ∧
    (n ≤ i → ∀ cur prev,
       fill fm s !! i = Some cur → fill fm s !! (i - n) = Some prev →
       c = fmul (fsub (fdiv cur prev) (Fin 1%Qc)) (of_Z 100)).
Proof.
  intros Hl.
  destruct (lookup_lt_is_Some_2 (times100 (pct_change fm n s)) i) as [c Hc];
    [by rewrite length_times100, length_pct_change|].
  exists c. split; [done|]. unfold times100 in Hc.
  rewrite list_lookup_fmap in Hc. split.
  - intros Hi. rewrite pct_change_lookup_lt in Hc by done.
    by injection Hc as <-.
  - intros Hi cur prev Hcur Hprev.
    rewrite (pct_change_lookup_ge fm n s i cur prev) in Hc by done.
    by injection Hc as <-.
Qed.

(** *** The Monthly branch *)

Lemma length_monthly_yoy fm a : length (monthly_yoy fm a) = length a.
Proof.
  unfold monthly_yoy, set_cells, afford_rows.
  rewrite length_zip_with, length_resize, !length_fmap. lia.
Qed.

Lemma monthly_yoy_zip fm a :
  monthly_yoy fm a =
  zip_with (λ r x, (r, [x])) a
    (times100 (pct_change fm 12 (Afford.Basket_Cost_Euro <$> a))).
Proof.
  unfold monthly_yoy. rewrite set_cells_new.
  - unfold afford_rows. by rewrite zip_with_fmap_l.
  - apply not_elem_of_nil.
  - unfold afford_rows.
    by rewrite length_times100, length_pct_change, !length_fmap.
Qed.

Lemma monthly_yoy_lookup fm a i r :
  monthly_yoy fm a !! i = Some r →
  ∃ row c, a !! i = Some row ∧ r = (row, [c]) ∧
    times100 (pct_change fm 12 (Afford.Basket_Cost_Euro <$> a)) !! i = Some c.
Proof.
  rewrite monthly_yoy_zip, lookup_zip_with. intros Hr.
  destruct (a !! i) as [row|]; [|done]. simpl in Hr.
  destruct (times100 _ !! i) as [c|]; [|done]. simpl in Hr.
  injection Hr as <-. eauto.
Qed.

(** Rows that all hold a NaN do not survive [dropna]. *)
Lemma dropna_rows_prefix {A} (floats : A → Series) (rows : list (A * Series)) n :
  (∀ i r, i < n → rows !! i = Some r → NaN ∈ r.2) →
  dropna_rows floats rows = dropna_rows floats (drop n rows).
Proof.
  intros Hnan. unfold dropna_rows.
  rewrite <- (take_drop n rows) at 1. rewrite filter_app.
  rewrite filter_none; [done|].
  apply Forall_forall. intros r Hr.
  apply elem_of_take in Hr as (i & Hi & Hlt).
  specialize (Hnan i r Hlt Hi).
  intros Hall. apply Is_true_true_2, forallb_True in Hall.
  rewrite Forall_app in Hall. destruct Hall as [_ Hall].
  rewrite Forall_forall in Hall. by specialize (Hall NaN Hnan).
Qed.

Lemma melt_length p :
  Forall (λ c, length c.2 = length (pv_index p)) (pv_columns p) →
  length (melt p) = length (pv_columns p) * length (pv_index p).
Proof.
  unfold melt. generalize (pv_index p) as index.
  intros index Hall. induction Hall as [|c cs Hc _ IH]; [done|].
  cbn [mbind list_bind]. rewrite length_app, IH.
  rewrite length_fmap, length_zip_with. simpl. lia.
Qed.

Lemma pivot_columns_length ms m p :
  pivot ms m = inr p →
  Forall (λ c, length c.2 = length (pv_index p)) (pv_columns p).
Proof.
  unfold pivot. case_decide; [|done]. intros [= <-]. simpl.
  apply Forall_fmap, Forall_forall. intros t _. simpl.
  by rewrite length_fmap.
Qed.

Lemma yoy_of_columns_length fm p :
  Forall (λ c, length c.2 = length (pv_index p)) (pv_columns p) →
  Forall (λ c, length c.2 = length (pv_index (yoy_of fm p)))
    (pv_columns (yoy_of fm p)).
Proof.
  intros Hall. unfold yoy_of; simpl. apply Forall_fmap.
  eapply Forall_impl; [exact Hall|]. intros c Hc. simpl.
  by rewrite length_times100, length_pct_change.
Qed.

Lemma elem_of_melt p d t v :
  (d, t, v) ∈ melt p ↔
  ∃ col i, (t, col) ∈ pv_columns p ∧ pv_index p !! i = Some d ∧ col !! i = Some v.
Proof.
  unfold melt. rewrite list_elem_of_bind. split.
  - intros ([t' col] & Hin & Hc). simpl in Hin.
    apply list_elem_of_fmap in Hin as ([d' v'] & [= -> -> ->] & Hz).
    apply list_elem_of_lookup in Hz as [i Hi].
    rewrite lookup_zip_with in Hi.
    destruct (pv_index p !! i) as [d''|] eqn:Hd; [|done]. simpl in Hi.
    destruct (col !! i) as [v''|] eqn:Hv; [|done]. simpl in Hi.
    injection Hi as -> ->. eauto.
  - intros (col & i & Hin & Hd & Hv). exists (t, col). split; [|done].
    simpl. apply list_elem_of_fmap. exists (d, v). split; [done|].
    apply list_elem_of_lookup. exists i.
    by rewrite lookup_zip_with, Hd, Hv.
Qed.


(** ** Frame rules *)

Section frame_rules.
Context (n0 : nat).

Lemma preserves_refl s : n0 ≤ length (heap s) → preserves n0 s s.
Proof. by split. Qed.

Lemma local_ret {A} (a : A) (Q : A → Prop) : Q a → local_to n0 (mret a) Q.
Proof.
  intros Ha s Hs. split; [by apply preserves_refl|].
  by intros a' [= <-].
Qed.

Lemma local_raise {A} e (Q : A → Prop) : local_to n0 (raise e) Q.
Proof. intros s Hs. split; [by apply preserves_refl|done]. Qed.

Lemma local_bind {A B} (m : M A) (k : A → M B) Q R :
  local_to n0 m Q → (∀ a, Q a → local_to n0 (k a) R) →
  local_to n0 (m ≫= k) R.
Proof.
  intros Hm Hk s Hs. unfold mbind, M_bind.
  destruct (Hm s Hs) as [[Ht Hl] HQ].
  destruct (m s) as [[e|a] s1]; simpl in *.
  - split; [by split|done].
  - destruct (Hk a (HQ a eq_refl) s1 Hl) as [[Ht' Hl'] HR].
    split; [|done]. split; [congruence|done].
Qed.

Lemma local_weaken {A} (m : M A) (Q R : A → Prop) :
  local_to n0 m Q → (∀ a, Q a → R a) → local_to n0 m R.
Proof.
  intros Hm HQR s Hs. destruct (Hm s Hs) as [? HQ].
  split; [done|]. intros a Ha. by apply HQR, HQ.
Qed.

Lemma local_lift {A} (r : exn + A) : local_to n0 (lift r) any.
Proof. destruct r; [apply local_raise|by apply local_ret]. Qed.

Lemma local_emit w : local_to n0 (emit w) any.
Proof. intros s Hs. by repeat split. Qed.

Lemma local_read r : local_to n0 (read r) any.
Proof.
  intros s Hs. unfold read.
  destruct (heap s !! r); (split; [by apply preserves_refl|done]).
Qed.

(** A new object lies beyond the first [n0]. *)
Lemma local_alloc f : local_to n0 (alloc f) (λ r, n0 ≤ r).
Proof.
  intros s Hs. unfold alloc, preserves; simpl. split.
  - split; [by rewrite take_app_le|]. rewrite length_app. lia.
  - by intros a [= <-].
Qed.

(** Writing through a reference beyond the first [n0] is local. *)
Lemma local_write r f : n0 ≤ r → local_to n0 (write r f) any.
Proof.
  intros Hr s Hs. unfold write, preserves; simpl. split; [|done].
  split; [by rewrite take_insert_ge|by rewrite length_insert].
Qed.

Lemma local_copy r : local_to n0 (copy r) (λ r', n0 ≤ r').
Proof.
  eapply local_bind; [apply local_read|]. intros f _. apply local_alloc.
Qed.

Lemma local_set_column r name col :
  n0 ≤ r → local_to n0 (set_column r name col) any.
Proof.
  intros Hr. eapply local_bind; [apply local_read|]. intros f _.
  destruct f; first [by apply local_write|apply local_raise].
Qed.

Lemma local_set_columns r names :
  n0 ≤ r → local_to n0 (set_columns r names) any.
Proof.
  intros Hr. eapply local_bind; [apply local_read|]. intros f _.
  destruct f; try apply local_raise.
  case_decide; [by apply local_write|apply local_raise].
Qed.

Lemma local_get_food r : local_to n0 (get_food r) any.
Proof.
  eapply local_bind; [apply local_read|]. intros f _.
  destruct f; first [by apply local_ret|apply local_raise].
Qed.

Lemma local_get_afford r : local_to n0 (get_afford r) any.
Proof.
  eapply local_bind; [apply local_read|]. intros f _.
  destruct f; first [by apply local_ret|apply local_raise].
Qed.

Lemma local_get_column r name : local_to n0 (get_column r name) any.
Proof.
  eapply local_bind; [apply local_read|]. intros f _. apply local_lift.
Qed.

Lemma local_line_chart title f y : local_to n0 (line_chart title f y) any.
Proof.
  eapply local_bind; [apply local_lift|]. intros pts _. apply local_emit.
Qed.

Lemma local_bar_chart title f y : local_to n0 (bar_chart title f y) any.
Proof.
  eapply local_bind; [apply local_lift|]. intros pts _. apply local_emit.
Qed.
End frame_rules.

(** The frame rule of a primitive, chosen by the head of the program. *)
Ltac local_prim m :=
  lazymatch m with
  | emit _ => apply local_emit
  | read _ => apply local_read
  | raise _ => apply local_raise
  | lift _ => apply local_lift
  | alloc _ => apply local_alloc
  | copy _ => apply local_copy
  | get_food _ => apply local_get_food
  | get_afford _ => apply local_get_afford
  | get_column _ _ => apply local_get_column
  | line_chart _ _ _ => apply local_line_chart
  | bar_chart _ _ _ => apply local_bar_chart
  | set_column _ _ _ => apply local_set_column; assumption
  | set_columns _ _ => apply local_set_columns; assumption
  | mret _ => apply local_ret; exact I
  end.

(** One step of a frame proof: split a bind, or close with a primitive. *)
Ltac local_step :=
  lazymatch goal with
  | |- local_to _ (mbind _ ?m) _ =>
      eapply local_bind; [local_prim m | intros ? ?; cbv beta in *]
  | |- local_to _ ?m _ => local_prim m
  end.

Lemma local_render_home n0 : local_to n0 render_home any.
Proof. unfold render_home. repeat local_step. Qed.

Lemma local_render_item_level n0 g sq inp :
  local_to n0 (render_item_level g sq inp) any.
Proof. unfold render_item_level. repeat local_step. Qed.

Lemma local_render_Category_level_Analysis n0 g fm inp :
  local_to n0 (render_Category_level_Analysis g fm inp) any.
Proof. unfold render_Category_level_Analysis. repeat local_step. Qed.

Lemma local_render_affordability n0 g fm inp :
  local_to n0 (render_affordability g fm inp) any.
Proof.
  unfold render_affordability.
  eapply local_bind; [apply local_emit|intros _ _].
  eapply local_bind; [apply local_emit|intros _ _].
  eapply local_bind; [apply local_emit|intros _ _].
  eapply (local_bind _ _ _ any).
  { destruct (view_type inp); repeat local_step. }
  intros _ _. do 5 local_step.
  eapply (local_bind _ _ _ any).
  { destruct (view_type inp); repeat local_step. }
  intros _ _. repeat local_step.
Qed.

Lemma local_render n0 r g fm sq inp : local_to n0 (render r g fm sq inp) any.
Proof.
  destruct r; simpl.
  - apply local_render_home.
  - apply local_render_item_level.
  - apply local_render_Category_level_Analysis.
  - apply local_render_affordability.
Qed.

(** ** Rendering leaves the loaded tables alone *)

Lemma load_run a f i t :
  load a f i t initial = (inr globals, loaded a f i t).
Proof. reflexivity. Qed.

(** C7.  A render routine, whatever the state, the references and the
    inputs it is run with (so for either value of the granularity toggle),
    leaves every object that exists when it starts exactly as it is: the
    store it ends with is the store it started with, followed by the
    objects it created itself (the copy of [afford], the per-year frames).
    In particular the four loaded tables are the same after a run, and
    after a second run with other inputs. *)
Theorem C7_render_keeps_tables (r : routine) (g : Globals)
    (fm : fill_method) (sq : Qc → Qc) (inp : Inputs) (s : State) :
  let s1 := (render r g fm sq inp s).2 in
  (∃ created, heap s1 = heap s ++ created) ∧
  (∀ a f i t inp',
     heap s = heap (loaded a f i t) →
     let s2 := (render r g fm sq inp' s1).2 in
     take 4 (heap s1) = heap (loaded a f i t) ∧
     take 4 (heap s2) = heap (loaded a f i t)).
Proof.
  intros s1.
  destruct (local_render (length (heap s)) r g fm sq inp s) as [[Ht Hl] _];
    [done|]. fold s1 in Ht, Hl.
  rewrite firstn_all in Ht.
  split.
  - exists (drop (length (heap s)) (heap s1)).
    by rewrite <- Ht at 1; rewrite take_drop.
  - intros a f i t inp' Hs s2.
    assert (take 4 (heap s1) = heap (loaded a f i t)) as H1.
    { rewrite <- Hs, <- Ht. by rewrite Hs. }
    split; [done|].
    destruct (local_render 4 r g fm sq inp' s1) as [[Ht2 _] _].
    { rewrite Hs in Hl. exact Hl. }
    fold s2 in Ht2. by rewrite Ht2.
Qed.

Lemma C7_render_keeps_tables_witness :
  take 4 (heap (render RenderAffordability globals Pad (λ q, q)
                  {| item_choice := 0; metric_selected := Mean;
                     view_type := Annual |}
                  (render RenderAffordability globals Pad (λ q, q)
                     {| item_choice := 0; metric_selected := Mean;
                        view_type := Monthly |}
                     (loaded step_24 six_singles [] [])).2).2) =
  heap (loaded step_24 six_singles [] []).
Proof.
  apply (C7_render_keeps_tables RenderAffordability globals Pad (λ q, q)
           {| item_choice := 0; metric_selected := Mean; view_type := Monthly |}
           (loaded step_24 six_singles [] [])).
  reflexivity.
Defined.

(** ** Running a program step by step *)

Lemma run_bind {A B} (m : M A) (k : A → M B) s a s1 :
  m s = (inr a, s1) → (m ≫= k) s = k a s1.
Proof. unfold mbind, M_bind. by intros ->. Qed.

Lemma run_get_food r s fd :
  heap s !! r = Some (FoodFrame fd) → get_food r s = (inr fd, s).
Proof. intros H. unfold get_food, mbind, M_bind, read. by rewrite H. Qed.

Lemma run_bind_assoc {A B C} (m : M A) (k1 : A → M B) (k2 : B → M C) s :
  ((m ≫= k1) ≫= k2) s = (m ≫= (λ a, k1 a ≫= k2)) s.
Proof. unfold mbind, M_bind. by destruct (m s) as [[e|a] s1]. Qed.

(** Run the first primitive of the program, its effect given by [tac]. *)
Ltac run_with tac :=
  repeat rewrite run_bind_assoc;
  erewrite run_bind; [|tac]; cbn [heap page].

(** Run the emits at the head of the program. *)
Ltac run_emits :=
  repeat (repeat rewrite run_bind_assoc;
          erewrite (run_bind (emit _)); [|reflexivity]; cbn [heap page]).

(** C8.  Whatever the food table loaded, whichever metric is selected and
    whichever fill default pandas has, the Category-Level routine
    completes and the only table it puts on the page is the fixed table of
    literal strings: two runs on any two food tables show identical
    summary tables. *)
Theorem C8_summary_table_static (g : Globals) (fm : fill_method)
    (inp : Inputs) (s : State) (fd : list Food.row) :
  heap s !! food g = Some (FoodFrame fd) →
  ∃ emitted,
    render_Category_level_Analysis g fm inp s =
      (inr (), {| heap := heap s; page := page s ++ emitted |}) ∧
    tables_of emitted =
      [ Table ["Category"; "Mean Price"; "Median Price (50%)";
               "Skew (Mean > Median?)"; "Price Stability (std)"]
          [ [TStr "Healthy"; TStr "€7.52"; TStr "€3.65"; TStr "High";
             TStr "Medium (7.01)"];
            [TStr "Neutral"; TStr "€6.53"; TStr "€2.20"; TStr "Very High";
             TStr "High (9.64)"];
            [TStr "Unhealthy"; TStr "€6.45"; TStr "€5.27"; TStr "Low";
             TStr "Stable (5.40)"] ] ].
Proof.
  intros Hfood. unfold render_Category_level_Analysis.
  run_emits.
  run_with ltac:(by apply run_get_food).
  destruct (pivot (monthly_stats fd) (metric_selected inp)) as [e|pv] eqn:Hp.
  { exfalso. pose proof (monthly_stats_NoDup fd) as Hnd.
    unfold pivot in Hp. by rewrite decide_True in Hp. }
  run_with ltac:(reflexivity).
  run_emits. unfold emit; cbn [heap page].
  eexists. split.
  - rewrite <- !app_assoc. reflexivity.
  - reflexivity.
Qed.

Lemma C8_summary_table_static_witness :
  ∃ emitted,
    render_Category_level_Analysis globals Pad
      {| item_choice := 0; metric_selected := Median; view_type := Monthly |}
      (loaded step_24 eleven_items [] []) =
      (inr (), {| heap := heap (loaded step_24 eleven_items [] []);
                  page := page (loaded step_24 eleven_items [] []) ++ emitted |}) ∧
    tables_of emitted = [summary_table].
Proof.
  apply (C8_summary_table_static globals Pad
           {| item_choice := 0; metric_selected := Median; view_type := Monthly |}
           (loaded step_24 eleven_items [] []) eleven_items).
  reflexivity.
Defined.

(** ** The affordability routine, run on the loaded table *)

Lemma run_read r s f : heap s !! r = Some f → read r s = (inr f, s).
Proof. intros H. unfold read. by rewrite H. Qed.

Lemma run_copy r s f :
  heap s !! r = Some f →
  copy r s = (inr (length (heap s)), {| heap := heap s ++ [f]; page := page s |}).
Proof. intros H. unfold copy. by erewrite run_bind by by apply run_read. Qed.

Lemma run_get_afford r s extra rows :
  heap s !! r = Some (AffordFrame extra rows) →
  get_afford r s = (inr (rows.*1), s).
Proof. intros H. unfold get_afford. by erewrite run_bind by by apply run_read. Qed.

Lemma run_get_column r name s f col :
  heap s !! r = Some f → column f name = inr col →
  get_column r name s = (inr col, s).
Proof.
  intros H Hc. unfold get_column.
  erewrite run_bind by by apply run_read. by rewrite Hc.
Qed.

Lemma run_line_chart title f y s pts :
  chart_points f y = inr pts →
  line_chart title f y s =
    (inr (), {| heap := heap s; page := page s ++ [LineChart title pts] |}).
Proof. intros H. unfold line_chart. by rewrite H. Qed.

Lemma run_bar_chart title f y s pts :
  chart_points f y = inr pts →
  bar_chart title f y s =
    (inr (), {| heap := heap s; page := page s ++ [BarChart title pts] |}).
Proof. intros H. unfold bar_chart. by rewrite H. Qed.

Lemma run_set_column_afford r name col s extra rows :
  heap s !! r = Some (AffordFrame extra rows) →
  set_column r name col s =
    (inr (), {| heap := <[r := AffordFrame (add_name extra name)
                                 (set_cells extra name col rows)]> (heap s);
                page := page s |}).
Proof. intros H. unfold set_column. by erewrite run_bind by by apply run_read. Qed.

Lemma run_set_column_year r name col s columns rows :
  heap s !! r = Some (YearFrame columns rows) →
  set_column r name col s =
    (inr (), {| heap := <[r := YearFrame (add_name columns name)
                                 (set_cells (tail columns) name col rows)]> (heap s);
                page := page s |}).
Proof. intros H. unfold set_column. by erewrite run_bind by by apply run_read. Qed.

Lemma run_set_columns r names s columns rows :
  heap s !! r = Some (YearFrame columns rows) →
  length names = length columns →
  set_columns r names s =
    (inr (), {| heap := <[r := YearFrame names rows]> (heap s); page := page s |}).
Proof.
  intros H Hl. unfold set_columns.
  erewrite run_bind by by apply run_read.
  cbv beta iota. by rewrite decide_True.
Qed.

(** The last object of the store. *)
Lemma lookup_last_object (h : list frame) f : (h ++ [f]) !! length h = Some f.
Proof. by apply list_lookup_middle. Qed.

Lemma insert_last_object (h : list frame) f f' :
  <[length h := f']> (h ++ [f]) = h ++ [f'].
Proof. rewrite insert_app_r_alt by done. by rewrite Nat.sub_diag. Qed.

Lemma mapM_total {A B} (f : A → option B) (g : A → B) (l : list A) :
  (∀ x, x ∈ l → f x = Some (g x)) → mapM f l = Some (g <$> l).
Proof.
  intros H. apply mapM_Some. apply Forall2_fmap_r, Forall_Forall2_diag.
  apply Forall_forall. intros x Hx. by apply H.
Qed.

Lemma column_basket extra rows :
  column (AffordFrame extra rows) "Basket_Cost_Euro" =
  inr ((λ r, Afford.Basket_Cost_Euro r.1) <$> rows).
Proof. unfold column. by rewrite (mapM_total _ (λ r, Afford.Basket_Cost_Euro r.1)). Qed.

Lemma column_ratio extra rows :
  column (AffordFrame extra rows) "Affordability_Ratio" =
  inr ((λ r, Afford.Affordability_Ratio r.1) <$> rows).
Proof. unfold column. by rewrite (mapM_total _ (λ r, Afford.Affordability_Ratio r.1)). Qed.

Lemma column_index extra rows :
  column (AffordFrame extra rows) "Affordability_Index" =
  inr ((λ r, Afford.Affordability_Index r.1) <$> rows).
Proof. unfold column. by rewrite (mapM_total _ (λ r, Afford.Affordability_Index r.1)). Qed.

Lemma column_monthly_yoy rows :
  Forall (λ r : Afford.row * Series, is_Some (r.2 !! 0)) rows →
  column (AffordFrame ["Monthly_YoY_%"] rows) "Monthly_YoY_%" =
  inr ((λ r, default NaN (r.2 !! 0)) <$> rows).
Proof.
  intros Hall. unfold column.
  rewrite (mapM_total _ (λ r, default NaN (r.2 !! 0))); [done|].
  rewrite Forall_forall in Hall. intros r Hr.
  destruct (Hall r Hr) as [c Hc].
  unfold afford_col; simpl. by rewrite Hc.
Qed.

Lemma column_year columns rows name j :
  list_find (λ n, n = name) (tail columns) = Some (j, name) →
  Forall (λ r : Z * Series, is_Some (r.2 !! j)) rows →
  column (YearFrame columns rows) name =
  inr ((λ r, default NaN (r.2 !! j)) <$> rows).
Proof.
  intros Hf Hall. unfold column.
  rewrite (mapM_total _ (λ r, default NaN (r.2 !! j))); [done|].
  rewrite Forall_forall in Hall. intros r Hr.
  destruct (Hall r Hr) as [c Hc].
  unfold year_col. rewrite Hf; simpl. by rewrite Hc.
Qed.

Lemma chart_points_column f y ys :
  column f y = inr ys → chart_points f y = inr (xy_points (frame_x f) ys).
Proof. intros H. unfold chart_points. by rewrite H. Qed.

Lemma afford_rows_fst a : (afford_rows a).*1 = a.
Proof.
  unfold afford_rows. rewrite <- list_fmap_compose. apply list_fmap_id.
Qed.

Lemma monthly_yoy_cells fm a :
  Forall (λ r : Afford.row * Series, is_Some (r.2 !! 0)) (monthly_yoy fm a).
Proof.
  apply Forall_forall. intros r Hr.
  apply list_elem_of_lookup in Hr as [i Hi].
  apply monthly_yoy_lookup in Hi as (row & c & _ & -> & _). by eexists.
Qed.

Lemma monthly_yoy_charted_cells fm a :
  Forall (λ r : Afford.row * Series, is_Some (r.2 !! 0)) (monthly_yoy_charted fm a).
Proof.
  pose proof (monthly_yoy_cells fm a) as H. rewrite Forall_forall in H.
  apply Forall_forall. intros r Hr. apply H.
  unfold monthly_yoy_charted, dropna_rows in Hr.
  by apply list_elem_of_filter in Hr as [_ Hr].
Qed.

Lemma afford_rows_col (col : Afford.row → float64) a :
  (λ r : Afford.row * Series, col r.1) <$> afford_rows a = col <$> a.
Proof. unfold afford_rows. by rewrite <- list_fmap_compose. Qed.

(** Find a widget in an explicit page. *)
Ltac find_widget :=
  cbn [app];
  repeat first [apply list_elem_of_here | apply list_elem_of_further].

(** The Monthly branch on the loaded table: the routine adds one object
    to the store, the copy of [afford] with its new column, and the chart
    of the YoY change shows the rows of [monthly_yoy.dropna()]. *)
Lemma render_affordability_monthly_run g fm inp s a :
  view_type inp = Monthly →
  heap s !! afford g = Some (AffordFrame [] (afford_rows a)) →
  ∃ emitted,
    render_affordability g fm inp s =
      (inr (), {| heap := heap s ++ [AffordFrame ["Monthly_YoY_%"] (monthly_yoy fm a)];
                  page := page s ++ emitted |}) ∧
    LineChart "Monthly YoY % Change in Basket Cost"
      (cell_points (λ r, XTime (Afford.Date r)) 0 (monthly_yoy_charted fm a))
      ∈ emitted.
Proof.
  intros Hview Ha.
  assert (afford g < length (heap s)) as Hlt by by eapply lookup_lt_Some.
  assert (∀ f, (heap s ++ [f]) !! afford g =
               Some (AffordFrame [] (afford_rows a))) as Ha'.
  { intros f. by rewrite lookup_app_l. }
  unfold render_affordability. rewrite Hview.
  run_emits.
  run_with ltac:(by apply run_read).
  run_with ltac:(by apply run_line_chart, chart_points_column, column_basket).
  run_emits.
  run_with ltac:(by apply run_copy).
  run_with ltac:(eapply run_get_column; [apply lookup_last_object|apply column_basket]).
  run_with ltac:(apply run_set_column_afford; apply lookup_last_object).
  rewrite insert_last_object, afford_rows_col.
  change (AffordFrame _ (set_cells _ _ _ _))
    with (AffordFrame ["Monthly_YoY_%"] (monthly_yoy fm a)).
  run_with ltac:(apply run_read; apply lookup_last_object).
  run_with ltac:(apply run_line_chart, chart_points_column, column_monthly_yoy,
                 monthly_yoy_charted_cells).
  run_emits.
  run_with ltac:(apply run_read, Ha').
  run_with ltac:(by apply run_line_chart, chart_points_column, column_ratio).
  run_emits.
  run_with ltac:(apply run_read, Ha').
  run_with ltac:(by apply run_line_chart, chart_points_column, column_index).
  run_emits. unfold emit; cbn [heap page].
  rewrite <- !app_assoc. eexists. split; [reflexivity|].
  find_widget.
Qed.

Lemma year_rows_cells (s : LSeries Z) :
  Forall (λ r : Z * Series, is_Some (r.2 !! 0)) (year_rows_of s).
Proof.
  unfold year_rows_of. apply Forall_fmap, Forall_forall. intros e _. by eexists.
Qed.

Lemma year_rows_col0 (s : LSeries Z) :
  (λ r : Z * Series, default NaN (r.2 !! 0)) <$> year_rows_of s = s.*2.
Proof. unfold year_rows_of. by rewrite <- list_fmap_compose. Qed.

Lemma year_rows_x (s : LSeries Z) :
  (λ r : Z * Series, XInt r.1) <$> year_rows_of s = XInt <$> s.*1.
Proof. unfold year_rows_of. by rewrite <- !list_fmap_compose. Qed.

Lemma yearly_avg_yoy_zip fm a :
  yearly_avg_yoy fm a =
  zip_with (λ e c, (e.1, [e.2; c])) (yearly_avg a)
    (times100 (pct_change fm 1 ((yearly_avg a).*2))).
Proof.
  unfold yearly_avg_yoy. rewrite set_cells_new.
  - unfold year_rows_of. by rewrite zip_with_fmap_l.
  - rewrite elem_of_cons, elem_of_nil. intros [[=]|[]].
  - unfold year_rows_of.
    by rewrite length_times100, length_pct_change, !length_fmap.
Qed.

Lemma yearly_avg_yoy_cells fm a :
  Forall (λ r : Z * Series, is_Some (r.2 !! 1))
    (dropna_rows (λ _, []) (yearly_avg_yoy fm a)).
Proof.
  apply Forall_forall. intros r Hr.
  unfold dropna_rows in Hr. apply list_elem_of_filter in Hr as [_ Hr].
  rewrite yearly_avg_yoy_zip in Hr.
  apply list_elem_of_lookup in Hr as [i Hi].
  rewrite lookup_zip_with in Hi.
  destruct (yearly_avg a !! i) as [e|]; [|done]. simpl in Hi.
  destruct (times100 _ !! i) as [c|]; [|done]. simpl in Hi.
  injection Hi as <-. by eexists.
Qed.

(** A loaded table is found at its reference however many objects have
    been created after it. *)
Ltac read_global Ha :=
  apply run_read; cbn [heap];
  rewrite ?lookup_app_l by (rewrite ?length_app; simpl; lia); exact Ha.

(** The Annual branch on the loaded table: three per-year frames are
    created, and the bar charts show the yearly mean, its change and the
    yearly total. *)
Lemma render_affordability_annual_run g fm inp s a :
  view_type inp = Annual →
  heap s !! afford g = Some (AffordFrame [] (afford_rows a)) →
  ∃ emitted,
    render_affordability g fm inp s =
      (inr (),
       {| heap := heap s ++
            [ YearFrame ["Year"; "Avg_Basket_Cost"; "YoY Change (%)"]
                (yearly_avg_yoy fm a);
              YearFrame ["Year"; "Total_Basket_Cost"]
                (year_rows_of (yearly_total a));
              YearFrame ["Year"; "Avg_Index"] (year_rows_of (annual_index a)) ];
          page := page s ++ emitted |}) ∧
    BarChart "Average Monthly Basket Cost (Annual View)"
      (xy_points (XInt <$> (yearly_avg a).*1) ((yearly_avg a).*2)) ∈ emitted ∧
    BarChart "Year-over-Year % Change in Avg Basket Cost"
      (cell_points XInt 1 (dropna_rows (λ _, []) (yearly_avg_yoy fm a)))
      ∈ emitted ∧
    BarChart "Total Basket Cost Spent per Year (€)"
      (xy_points (XInt <$> (yearly_total a).*1) ((yearly_total a).*2)) ∈ emitted.
Proof.
  intros Hview Ha.
  assert (afford g < length (heap s)) as Hlt by by eapply lookup_lt_Some.
  unfold render_affordability. rewrite Hview.
  run_emits.
  run_with ltac:(by eapply run_get_afford).
  rewrite afford_rows_fst.
  run_with ltac:(reflexivity).
  run_with ltac:(eapply run_set_columns; [apply lookup_last_object|reflexivity]).
  rewrite insert_last_object.
  run_with ltac:(apply run_read, lookup_last_object).
  run_with ltac:(eapply run_bar_chart, chart_points_column,
                 (column_year _ _ _ 0); [reflexivity|apply year_rows_cells]).
  run_emits.
  run_with ltac:(eapply run_get_column;
                 [apply lookup_last_object
                 |eapply (column_year _ _ _ 0); [reflexivity|apply year_rows_cells]]).
  run_with ltac:(apply run_set_column_year, lookup_last_object).
  rewrite insert_last_object, year_rows_col0.
  change (YearFrame _ (set_cells _ _ _ _))
    with (YearFrame ["Year"; "Avg_Basket_Cost"; "YoY Change (%)"]
            (yearly_avg_yoy fm a)).
  run_with ltac:(apply run_read, lookup_last_object).
  run_with ltac:(eapply run_bar_chart, chart_points_column,
                 (column_year _ _ _ 1); [reflexivity|apply yearly_avg_yoy_cells]).
  run_emits.
  run_with ltac:(eapply run_get_afford; cbn [heap];
                 rewrite ?lookup_app_l by (rewrite ?length_app; simpl; lia);
                 exact Ha).
  rewrite afford_rows_fst.
  run_with ltac:(reflexivity).
  run_with ltac:(eapply run_set_columns; [apply lookup_last_object|reflexivity]).
  rewrite insert_last_object.
  run_with ltac:(apply run_read, lookup_last_object).
  run_with ltac:(eapply run_bar_chart, chart_points_column,
                 (column_year _ _ _ 0); [reflexivity|apply year_rows_cells]).
  run_emits.
  run_with ltac:(read_global Ha).
  run_with ltac:(by apply run_line_chart, chart_points_column, column_ratio).
  run_emits.
  run_with ltac:(eapply run_get_afford; cbn [heap];
                 rewrite ?lookup_app_l by (rewrite ?length_app; simpl; lia);
                 exact Ha).
  rewrite afford_rows_fst.
  run_with ltac:(reflexivity).
  run_with ltac:(eapply run_set_columns; [apply lookup_last_object|reflexivity]).
  rewrite insert_last_object.
  run_with ltac:(apply run_read, lookup_last_object).
  run_with ltac:(eapply run_bar_chart, chart_points_column,
                 (column_year _ _ _ 0); [reflexivity|apply year_rows_cells]).
  run_emits. unfold emit; cbn [heap page].
  rewrite <- !app_assoc. eexists. split; [reflexivity|].
  cbn [frame_x dropna]. rewrite !year_rows_x, !year_rows_col0.
  split_and!; find_widget.
Qed.

(** ** Aggregates of whole-number cells *)

Lemma valid_int_cells zs : valid (int_cell <$> zs) = of_Z <$> omap id zs.
Proof.
  unfold valid. induction zs as [|[n|] zs IH]; [done|..].
  - rewrite fmap_cons, filter_cons_True by done.
    cbn [omap list_omap id fmap list_fmap]. by rewrite IH.
  - rewrite fmap_cons, filter_cons_False by (by intros []).
    cbn [omap list_omap id]. exact IH.
Qed.

Lemma fsum_of_Z (ns : list Z) : fsum (of_Z <$> ns) = of_Z (foldr Z.add 0%Z ns).
Proof.
  unfold fsum, of_Z. induction ns as [|n ns IH].
  { cbn [fmap list_fmap foldr]. by rewrite Z2Qc_inj_0. }
  cbn [fmap list_fmap foldr]. rewrite IH. cbn [fadd].
  by rewrite Z2Qc_inj_add.
Qed.

(** The sum of whole-number cells is the whole-number total. *)
Lemma agg_sum_int zs : agg_sum (int_cell <$> zs) = of_Z (int_total zs).
Proof. unfold agg_sum. by rewrite valid_int_cells, fsum_of_Z. Qed.

Lemma count_int zs : count (int_cell <$> zs) = int_count zs.
Proof. unfold count. by rewrite valid_int_cells, length_fmap. Qed.

(** ** The two branches of the affordability routine *)

(** C6.  In the Annual branch the per-year frames are, for each calendar
    year of the table and in ascending year order: (a) the mean of the
    year's Basket_Cost_Euro cells, which is the year's sum divided by the
    number of its valid cells; (b) next to it the percentage change of
    that mean at lag 1 (NaN for the first year, (cur / prev - 1) * 100
    afterwards); (c) the sum of the year's Basket_Cost_Euro cells, which for
    known whole-number monthly values (missing months skipped) is their
    exact total; and the routine, run on the loaded table, builds these
    frames as new objects and shows them in its three bar charts.  On 24
    months of 100 euro both yearly sums are 1200; on 24 months with a
    different cost each, 1200 euro over the first year and 1800 over the
    second, the sums are 1200 and 1800, the means 100 and 150 and the
    change 50 percent. *)
Theorem C6_annual_aggregation (fm : fill_method) (a : list Afford.row) :
  let years := (λ r, year (Afford.Date r)) <$> a in
  let basket y :=
    Afford.Basket_Cost_Euro <$> filter (λ r, year (Afford.Date r) = y) a in
  ((yearly_avg a).*1 = sort_by Z.leb (unique years) ∧
   ∀ y v, (y, v) ∈ yearly_avg a ↔ y ∈ years ∧ v = agg_mean (basket y)) ∧
  (∀ i y v, yearly_avg a !! i = Some (y, v) →
     ∃ c, yearly_avg_yoy fm a !! i = Some (y, [v; c]) ∧
       (i = 0 → c = NaN) ∧
       (0 < i → ∀ cur prev,
          fill fm ((yearly_avg a).*2) !! i = Some cur →
          fill fm ((yearly_avg a).*2) !! (i - 1) = Some prev →
          c = fmul (fsub (fdiv cur prev) (Fin 1%Qc)) (of_Z 100))) ∧
  ((yearly_total a).*1 = sort_by Z.leb (unique years) ∧
   ∀ y v, (y, v) ∈ yearly_total a ↔ y ∈ years ∧ v = agg_sum (basket y)) ∧
  (∀ y m s, (y, m) ∈ yearly_avg a → (y, s) ∈ yearly_total a →
     m = fdiv s (of_nat (count (basket y)))) ∧
  (∀ y zs, y ∈ years → basket y = int_cell <$> zs →
     (int_abs_total zs < 2 ^ 53)%Z →
     (y, of_Z (int_total zs)) ∈ yearly_total a ∧
     (y, fdiv (of_Z (int_total zs)) (of_nat (int_count zs))) ∈ yearly_avg a) ∧
  (∀ g inp s,
     view_type inp = Annual →
     heap s !! afford g = Some (AffordFrame [] (afford_rows a)) →
     ∃ emitted,
       render_affordability g fm inp s =
         (inr (),
          {| heap := heap s ++
               [ YearFrame ["Year"; "Avg_Basket_Cost"; "YoY Change (%)"]
                   (yearly_avg_yoy fm a);
                 YearFrame ["Year"; "Total_Basket_Cost"]
                   (year_rows_of (yearly_total a));
                 YearFrame ["Year"; "Avg_Index"]
                   (year_rows_of (annual_index a)) ];
             page := page s ++ emitted |}) ∧
       BarChart "Average Monthly Basket Cost (Annual View)"
         (xy_points (XInt <$> (yearly_avg a).*1) ((yearly_avg a).*2))
         ∈ emitted ∧
       BarChart "Year-over-Year % Change in Avg Basket Cost"
         (cell_points XInt 1 (dropna_rows (λ _, []) (yearly_avg_yoy fm a)))
         ∈ emitted ∧
       BarChart "Total Basket Cost Spent per Year (€)"
         (xy_points (XInt <$> (yearly_total a).*1) ((yearly_total a).*2))
         ∈ emitted) ∧
  yearly_total flat_24 = [(2020%Z, of_Z 1200); (2021%Z, of_Z 1200)] ∧
  yearly_total varied_24 = [(2020%Z, of_Z 1200); (2021%Z, of_Z 1800)] ∧
  yearly_avg varied_24 = [(2020%Z, of_Z 100); (2021%Z, of_Z 150)] ∧
  yearly_avg_yoy fm varied_24 =
    [(2020%Z, [of_Z 100; NaN]); (2021%Z, [of_Z 150; of_Z 50])].
Proof.
  intros years basket. split_and!.
  - apply by_year_keys.
  - intros y v. apply elem_of_by_year.
  - intros i y v Hi. unfold yearly_avg_yoy.
    rewrite set_cells_new; first last.
    { unfold year_rows_of.
      by rewrite length_times100, length_pct_change, !length_fmap. }
    { rewrite elem_of_cons, elem_of_nil. intros [[=]|[]]. }
    destruct (yoy_lookup fm 1 ((yearly_avg a).*2) i) as (c & Hc & H0 & H1).
    { rewrite length_fmap. by eapply lookup_lt_Some. }
    exists c. split_and!.
    + unfold year_rows_of.
      rewrite lookup_zip_with, list_lookup_fmap, Hi. simpl. by rewrite Hc.
    + intros ->. apply H0. lia.
    + intros Hpos. apply H1. lia.
  - apply by_year_keys.
  - intros y v. apply elem_of_by_year.
  - intros y m s Hm Hs.
    apply elem_of_by_year in Hm as [_ ->].
    apply elem_of_by_year in Hs as [_ ->]. reflexivity.
  - intros y zs Hy Hzs _. split; apply elem_of_by_year; (split; [done|]).
    + fold (basket y). by rewrite Hzs, agg_sum_int.
    + fold (basket y). rewrite Hzs. unfold agg_mean.
      by rewrite agg_sum_int, count_int.
  - intros g inp s. apply render_affordability_annual_run.
  - apply (bool_decide_eq_true_1 (_ = _)). vm_compute. reflexivity.
  - apply (bool_decide_eq_true_1 (_ = _)). vm_compute. reflexivity.
  - apply (bool_decide_eq_true_1 (_ = _)). vm_compute. reflexivity.
  - apply (bool_decide_eq_true_1 (_ = _)). destruct fm; vm_compute; reflexivity.
Qed.

Lemma C6_annual_aggregation_witness :
  (2020%Z, of_Z 1200) ∈ yearly_total varied_24 ∧
  (2020%Z, fdiv (of_Z 1200) (of_nat 12)) ∈ yearly_avg varied_24 ∧
  ∃ c, yearly_avg_yoy Pad varied_24 !! 1 = Some (2021%Z, [of_Z 150; c]) ∧
       c = fmul (fsub (fdiv (of_Z 150) (of_Z 100)) (Fin 1%Qc)) (of_Z 100).
Proof.
  destruct (C6_annual_aggregation Pad varied_24)
    as (_ & Hyoy & _ & _ & Hint & _).
  destruct (Hint 2020%Z
              (Some <$> [94; 95; 96; 97; 98; 99; 101; 102; 103; 104; 105; 106]%Z))
    as [Htotal Hmean].
  { vm_compute. repeat constructor. }
  { apply (bool_decide_eq_true_1 (_ = _)). vm_compute. reflexivity. }
  { vm_compute. reflexivity. }
  split; [exact Htotal|]. split; [exact Hmean|].
  destruct (Hyoy 1 2021%Z (of_Z 150)) as (c & Hc & _ & Hlag).
  { apply (bool_decide_eq_true_1 (_ = _)). vm_compute. reflexivity. }
  exists c. split; [exact Hc|].
  apply (Hlag ltac:(lia) (of_Z 150) (of_Z 100)).
  - apply (bool_decide_eq_true_1 (_ = _)). vm_compute. reflexivity.
  - apply (bool_decide_eq_true_1 (_ = _)). vm_compute. reflexivity.
Defined.

(** C3.  In the Monthly branch the new column is the percentage change of
    Basket_Cost_Euro at lag 12, times 100: NaN on the first 12 rows and
    (cur / prev - 1) * 100 afterwards, [prev] standing 12 rows before
    [cur].  The charted frame [monthly_yoy.dropna()] is the [dropna] of the
    frame without its first 12 rows: these rows are never among the
    charted ones, which number at most [len(afford) - 12]; the routine,
    run on the loaded table, draws its YoY chart from exactly this frame,
    a new object next to the loaded table.  The long YoY
    frame of the Category-Level routine, in contrast, has a row for every
    Date and Tag, those of the first 12 Dates with NaN as value. *)
Theorem C3_monthly_yoy_drops_first_12 (fm : fill_method)
    (a : list Afford.row) :
  let basket := Afford.Basket_Cost_Euro <$> a in
  (length (monthly_yoy fm a) = length a ∧
   ∀ i r, monthly_yoy fm a !! i = Some r →
     ∃ row c, a !! i = Some row ∧ r = (row, [c]) ∧
       (i < 12 → c = NaN) ∧
       (12 ≤ i → ∀ cur prev,
          fill fm basket !! i = Some cur →
          fill fm basket !! (i - 12) = Some prev →
          c = fmul (fsub (fdiv cur prev) (Fin 1%Qc)) (of_Z 100))) ∧
  (monthly_yoy_charted fm a =
     dropna_rows afford_floats (drop 12 (monthly_yoy fm a)) ∧
   length (monthly_yoy_charted fm a) ≤ length a - 12) ∧
  (∀ g inp s,
     view_type inp = Monthly →
     heap s !! afford g = Some (AffordFrame [] (afford_rows a)) →
     ∃ emitted,
       render_affordability g fm inp s =
         (inr (),
          {| heap := heap s ++
               [AffordFrame ["Monthly_YoY_%"] (monthly_yoy fm a)];
             page := page s ++ emitted |}) ∧
       LineChart "Monthly YoY % Change in Basket Cost"
         (cell_points (λ r, XTime (Afford.Date r)) 0 (monthly_yoy_charted fm a))
         ∈ emitted) ∧
  (∀ food m pv, pivot (monthly_stats food) m = inr pv →
     length (melt (yoy_of fm pv)) =
       length (pv_columns pv) * length (pv_index pv) ∧
     ∀ i d t, i < 12 → pv_index pv !! i = Some d →
       t ∈ (pv_columns pv).*1 → (d, t, NaN) ∈ melt (yoy_of fm pv)).
Proof.
  intros basket.
  assert (monthly_yoy_charted fm a =
          dropna_rows afford_floats (drop 12 (monthly_yoy fm a))) as Hdrop.
  { unfold monthly_yoy_charted. apply dropna_rows_prefix.
    intros i r Hi Hr.
    apply monthly_yoy_lookup in Hr as (row & c & Ha & -> & Hc).
    rewrite yoy_lookup_lt in Hc.
    - injection Hc as <-. apply list_elem_of_here.
    - done.
    - rewrite length_fmap. by eapply lookup_lt_Some. }
  split_and!.
  - apply length_monthly_yoy.
  - intros i r Hr.
    apply monthly_yoy_lookup in Hr as (row & c & Ha & -> & Hc).
    exists row, c. split; [done|]. split; [done|].
    destruct (yoy_lookup fm 12 basket i) as (c' & Hc' & Hlt & Hge).
    { unfold basket. rewrite length_fmap. by eapply lookup_lt_Some. }
    unfold basket in Hc'. rewrite Hc in Hc'. injection Hc' as <-. done.
  - exact Hdrop.
  - rewrite Hdrop. unfold dropna_rows.
    etransitivity; [apply length_filter|].
    by rewrite length_drop, length_monthly_yoy.
  - intros g inp s. apply render_affordability_monthly_run.
  - intros food m pv H. split.
    { apply pivot_columns_length in H.
      rewrite melt_length by (by apply yoy_of_columns_length).
      unfold yoy_of; simpl. by rewrite length_fmap. }
    intros i d t Hi Hd Ht.
    apply list_elem_of_fmap in Ht as ([t' col] & -> & Hin). simpl.
    pose proof (pivot_columns_length _ _ _ H) as Hlen.
    rewrite Forall_forall in Hlen. specialize (Hlen _ Hin). simpl in Hlen.
    apply elem_of_melt.
    exists (times100 (pct_change fm 12 col)), i. split_and!.
    + unfold yoy_of; simpl.
      apply list_elem_of_fmap. by exists (t', col).
    + done.
    + apply yoy_lookup_lt; [done|].
      rewrite Hlen. by eapply lookup_lt_Some.
Qed.

Lemma C3_monthly_yoy_drops_first_12_witness :
  length (monthly_yoy_charted Pad step_24) ≤ length step_24 - 12 ∧
  ∃ emitted,
    render_affordability globals Pad
      {| item_choice := 0; metric_selected := Mean; view_type := Monthly |}
      (loaded step_24 six_singles [] []) =
      (inr (),
       {| heap := heap (loaded step_24 six_singles [] []) ++
            [AffordFrame ["Monthly_YoY_%"] (monthly_yoy Pad step_24)];
          page := page (loaded step_24 six_singles [] []) ++ emitted |}) ∧
    LineChart "Monthly YoY % Change in Basket Cost"
      (cell_points (λ r, XTime (Afford.Date r)) 0 (monthly_yoy_charted Pad step_24))
      ∈ emitted.
Proof.
  destruct (C3_monthly_yoy_drops_first_12 Pad step_24)
    as (_ & [_ Hlen] & Hrun & _).
  split; [exact Hlen|].
  apply (Hrun globals
           {| item_choice := 0; metric_selected := Mean; view_type := Monthly |}
           (loaded step_24 six_singles [] [])); reflexivity.
Defined.

(** ** Further properties: the navigation and item selectors *)

Lemma selectbox_elem_of options choice o :
  selectbox options choice = Some o → o ∈ options.
Proof.
  unfold selectbox. destruct (options !! choice) as [o'|] eqn:Hc.
  - intros [= <-]. by eapply list_elem_of_lookup_2.
  - destruct options as [|o' options]; [done|].
    simpl. intros [= <-]. apply list_elem_of_here.
Qed.

Lemma selectbox_None options choice :
  selectbox options choice = None ↔ options = [].
Proof.
  unfold selectbox. split.
  - destruct (options !! choice); [done|]. by destruct options.
  - intros ->. by rewrite lookup_nil.
Qed.

(** X1.  Whatever the user does with the navigation selector, the value of
    [view] is one of its four options, so the if/elif chain of the router
    always takes a branch: the fall-through without a routine is never
    reached from the selector. *)
Theorem X1_selector_always_routes (view_choice : nat) :
  ∃ view r,
    selectbox views view_choice = Some view ∧
    view ∈ views ∧
    route view = Some r.
Proof.
  destruct (selectbox views view_choice) as [view|] eqn:Hs.
  - pose proof (selectbox_elem_of _ _ _ Hs) as Hin.
    exists view. unfold views in Hin.
    rewrite !elem_of_cons, elem_of_nil in Hin.
    destruct Hin as [->|[->|[->|[->|[]]]]]; eexists;
      (split; [done|]); (split; [|reflexivity]);
      unfold views; rewrite !elem_of_cons; tauto.
  - by apply selectbox_None in Hs.
Qed.

Section sorted_insertion.
Context {A : Type} (leb : A → A → bool) (P : A → Prop).
Hypothesis leb_total_on : ∀ x y, P x → P y → leb x y = true ∨ leb y x = true.

Lemma HdRel_insert_by x y l :
  leb y x = true → HdRel (λ a b, leb a b = true) y l →
  HdRel (λ a b, leb a b = true) y (insert_by leb x l).
Proof.
  intros Hyx Hhd. destruct l as [|z l]; simpl; [by constructor|].
  destruct (leb x z); constructor; [done|]. by inversion Hhd.
Qed.

Lemma Sorted_insert_by x l :
  P x → Forall P l →
  Sorted (λ a b, leb a b = true) l →
  Sorted (λ a b, leb a b = true) (insert_by leb x l).
Proof.
  intros Hx HP Hs. induction Hs as [|y l Hs IH Hhd]; simpl.
  - repeat constructor.
  - apply Forall_cons in HP as [Hy HP].
    destruct (leb x y) eqn:Hxy.
    + constructor; [by constructor|by constructor].
    + constructor; [by apply IH|].
      apply HdRel_insert_by; [|done].
      by destruct (leb_total_on x y Hx Hy) as [?|?]; [congruence|].
Qed.

Lemma Sorted_sort_by l :
  Forall P l → Sorted (λ a b, leb a b = true) (sort_by leb l).
Proof.
  induction 1 as [|x l Hx HP IH]; simpl; [constructor|].
  apply Sorted_insert_by; [done| |done].
  by apply Forall_sort_by.
Qed.
End sorted_insertion.

(** X2.  The options of the item selector, [sorted(food['Item'].unique())],
    are exactly the item labels of the food table, each once, in ascending
    order. *)
Theorem X2_item_options_sorted_unique (food : list Food.row) :
  (∀ item, item ∈ item_options food ↔ item ∈ Food.Item <$> food) ∧
  NoDup (item_options food) ∧
  Sorted (λ a b, String.leb a b = true) (item_options food).
Proof.
  unfold item_options. split_and!.
  - intros item. by rewrite elem_of_sort_by, elem_of_unique.
  - rewrite NoDup_sort_by. apply NoDup_unique.
  - apply (Sorted_sort_by String.leb (λ _, True)).
    + intros x y _ _. apply String.leb_total.
    + by apply Forall_forall.
Qed.

(** X3.  On a food table with at least one row the item selector always
    returns an item of the table, so the filtered series behind the price
    chart is never empty; on an empty table it returns None and the series
    is empty. *)
Theorem X3_selected_item_has_rows (food : list Food.row) (choice : nat) :
  let selected := selectbox (item_options food) choice in
  (food ≠ [] →
     ∃ item, selected = Some item ∧ item ∈ Food.Item <$> food ∧
             item_data food selected ≠ []) ∧
  (food = [] → selected = None ∧ item_data food selected = []).
Proof.
  intros selected. split.
  - intros Hne.
    destruct selected as [item|] eqn:Hs.
    + exists item. split; [done|].
      apply selectbox_elem_of in Hs.
      unfold item_options in Hs.
      rewrite elem_of_sort_by, elem_of_unique in Hs.
      split; [done|].
      apply list_elem_of_fmap in Hs as (r & -> & Hr).
      intros Hnil. unfold item_data in Hnil.
      by eapply (filter_nil_not_elem_of _ _ r) in Hnil.
    + apply selectbox_None in Hs.
      destruct food as [|r food]; [done|].
      assert (Food.Item r ∈ item_options (r :: food)) as Hin.
      { unfold item_options. rewrite elem_of_sort_by, elem_of_unique.
        rewrite fmap_cons. apply list_elem_of_here. }
      rewrite Hs in Hin. by apply elem_of_nil in Hin.
  - intros ->. done.
Qed.

Lemma X3_selected_item_has_rows_witness :
  ∃ item, selectbox (item_options milk_flour) 7 = Some item ∧
          item ∈ Food.Item <$> milk_flour ∧
          item_data milk_flour (selectbox (item_options milk_flour) 7) ≠ [].
Proof.
  destruct (X3_selected_item_has_rows milk_flour 7) as [Hne _].
  apply Hne. discriminate.
Defined.

(** ** Further properties: grouping and ranking *)

Lemma join_nil_groups {A K} (ks : list K) :
  mjoin ((λ _ : K, @nil A) <$> ks) = [].
Proof. induction ks as [|k ks IH]; [done|]. simpl. exact IH. Qed.

Lemma join_add_to_group {A} `{EqDecision K} (f : K → list A) (r : A)
    (k0 : K) (ks : list K) :
  NoDup ks → k0 ∈ ks →
  mjoin ((λ k, if decide (k0 = k) then r :: f k else f k) <$> ks) ≡ₚ
  r :: mjoin (f <$> ks).
Proof.
  intros Hnd. induction Hnd as [|k ks Hk Hnd IH]; intros Hin.
  { by apply elem_of_nil in Hin. }
  rewrite !fmap_cons. cbn [mjoin list_join].
  destruct (decide (k0 = k)) as [->|Hne].
  - assert ((λ k', if decide (k = k') then r :: f k' else f k') <$> ks =
            f <$> ks) as ->; [|done].
    apply list_fmap_ext. intros i k' Hk'.
    apply list_elem_of_lookup_2 in Hk'.
    rewrite decide_False; [done|]. intros Heq. by subst.
  - apply elem_of_cons in Hin as [?|Hin]; [done|].
    rewrite IH by done. by rewrite Permutation_middle.
Qed.

Lemma join_filter_keys {A} `{EqDecision K} (key : A → K) (ks : list K)
    (rows : list A) :
  NoDup ks → (∀ r, r ∈ rows → key r ∈ ks) →
  mjoin ((λ k, filter (λ r, key r = k) rows) <$> ks) ≡ₚ rows.
Proof.
  intros Hnd. induction rows as [|r rows IH]; intros Hin.
  { change (mjoin ((λ _ : K, @nil A) <$> ks) ≡ₚ []).
    by rewrite join_nil_groups. }
  assert ((λ k, filter (λ r', key r' = k) (r :: rows)) <$> ks =
          (λ k, if decide (key r = k)
                then r :: filter (λ r', key r' = k) rows
                else filter (λ r', key r' = k) rows) <$> ks) as ->.
  { apply list_fmap_ext. intros _ k _.
    rewrite filter_cons. by repeat case_decide. }
  rewrite (join_add_to_group (λ k, filter (λ r', key r' = k) rows))
    by (first [done|apply Hin, list_elem_of_here]).
  f_equiv. apply IH. intros r' Hr'. by apply Hin, list_elem_of_further.
Qed.

Lemma groupby_partition {A} `{EqDecision K} (kleb : K → K → bool)
    (key : A → K) (rows : list A) :
  mjoin ((groupby kleb key rows).*2) ≡ₚ rows ∧
  Forall (λ g, g.2 ≠ [] ∧ Forall (λ r, key r = g.1) g.2) (groupby kleb key rows).
Proof.
  split.
  - unfold groupby. rewrite <- list_fmap_compose.
    apply (join_filter_keys key).
    + rewrite NoDup_sort_by. apply NoDup_unique.
    + intros r Hr. rewrite elem_of_sort_by, elem_of_unique.
      by apply list_elem_of_fmap_2.
  - apply Forall_forall. intros [k g] Hg.
    apply elem_of_groupby in Hg as [Hk ->]. simpl. split.
    + apply list_elem_of_fmap in Hk as (r & -> & Hr).
      intros Hnil. by eapply (filter_nil_not_elem_of _ _ r) in Hnil.
    + apply Forall_forall. intros r Hr.
      by apply list_elem_of_filter in Hr as [? _].
Qed.

(** X4.  Each of the three groupings of the script (food by Item, food by
    Date and Tag, affordability by calendar year) splits its table without
    loss: the groups are not empty, the rows of a group carry the key of
    the group, and all groups together hold exactly the rows of the table,
    each row once. *)
Theorem X4_groupby_partitions (food : list Food.row) (a : list Afford.row) :
  let no_loss {A K : Type} (key : A → K) (rows : list A)
        (groups : list (K * list A)) :=
    mjoin (groups.*2) ≡ₚ rows ∧
    Forall (λ g, g.2 ≠ [] ∧ Forall (λ r, key r = g.1) g.2) groups in
  no_loss Food.Item food (groupby String.leb Food.Item food) ∧
  no_loss (λ r, (Food.Date r, Food.Tag r)) food
    (groupby pair_leb (λ r, (Food.Date r, Food.Tag r)) food) ∧
  no_loss (λ r, year (Afford.Date r)) a
    (groupby Z.leb (λ r, year (Afford.Date r)) a).
Proof. intros no_loss. split_and!; apply groupby_partition. Qed.

Lemma fleb_total x y :
  x ≠ NaN → y ≠ NaN → fleb x y = true ∨ fleb y x = true.
Proof.
  intros Hx Hy. destruct x as [a| | |], y as [b| | |]; simpl; try tauto.
  destruct (Qclt_le_dec a b) as [Hlt|Hle].
  - left. apply bool_decide_eq_true. by apply Qclt_le_weak.
  - right. by apply bool_decide_eq_true.
Qed.

Lemma fleb_trans x y z :
  fleb x y = true → fleb y z = true → fleb x z = true.
Proof.
  destruct x as [a| | |], y as [b| | |], z as [c| | |]; simpl; try done.
  rewrite !bool_decide_eq_true. apply Qcle_trans.
Qed.

Lemma fleb_notna x y : fleb x y = true → x ≠ NaN ∧ y ≠ NaN.
Proof. by destruct x, y. Qed.

Lemma StronglySorted_lookup {A} (R : relation A) (l : list A) i j a b :
  StronglySorted R l → i < j → l !! i = Some a → l !! j = Some b → R a b.
Proof.
  intros Hs. revert i j. induction Hs as [|x l Hs IH Hall]; intros i j Hij Hi Hj.
  { by rewrite lookup_nil in Hi. }
  destruct j as [|j]; [lia|]. simpl in Hj.
  destruct i as [|i]; simpl in Hi.
  - injection Hi as <-. rewrite Forall_forall in Hall.
    apply Hall. by eapply list_elem_of_lookup_2.
  - apply (IH i j); [lia|done..].
Qed.

(** [sort_values]: the defined entries stand in descending order. *)
Lemma sort_values_desc_descending {K} (s : LSeries K) i j e1 e2 :
  i < j →
  sort_values_desc s !! i = Some e1 → sort_values_desc s !! j = Some e2 →
  e2.2 ≠ NaN → fleb e2.2 e1.2 = true.
Proof.
  intros Hij H1 H2 Hdef. unfold sort_values_desc in H1, H2.
  set (defined := sort_by (λ a b : K * float64, fleb b.2 a.2)
                    (filter (λ e, notna e.2) s)) in *.
  set (undefined := filter (λ e : K * float64, isna e.2) s) in *.
  assert (j < length defined) as Hj.
  { destruct (decide (j < length defined)) as [|Hge]; [done|exfalso].
    rewrite lookup_app_r in H2 by lia.
    apply list_elem_of_lookup_2, list_elem_of_filter in H2 as [Hna _].
    by destruct (e2.2). }
  rewrite lookup_app_l in H1 by lia. rewrite lookup_app_l in H2 by done.
  assert (Forall (λ e : K * float64, e.2 ≠ NaN) (filter (λ e, notna e.2) s))
    as Hvalid.
  { apply Forall_forall. intros e He.
    apply list_elem_of_filter in He as [He _]. by destruct (e.2). }
  assert (StronglySorted (λ a b : K * float64, fleb b.2 a.2 = true) defined)
    as Hsorted.
  { apply Sorted_StronglySorted.
    - intros a b c Hab Hbc. by eapply fleb_trans.
    - apply (Sorted_sort_by _ (λ e : K * float64, e.2 ≠ NaN)); [|done].
      intros a b Ha Hb. destruct (fleb_total a.2 b.2 Ha Hb); tauto. }
  exact (StronglySorted_lookup _ defined i j e1 e2 Hsorted Hij H1 H2).
Qed.

(** X5.  Both item rankings are in descending order with the undefined
    values last: an entry with a defined value is preceded only by entries
    whose value is defined and at least as large.  So the top-5 tables hold
    the largest standard deviations and the largest mean prices. *)
Theorem X5_rankings_descending (sq : Qc → Qc) (food : list Food.row)
    (i j : nat) (e1 e2 : string * float64) :
  i < j → e2.2 ≠ NaN →
  (volatility sq food !! i = Some e1 → volatility sq food !! j = Some e2 →
     e1.2 ≠ NaN ∧ fleb e2.2 e1.2 = true) ∧
  (avg_price food !! i = Some e1 → avg_price food !! j = Some e2 →
     e1.2 ≠ NaN ∧ fleb e2.2 e1.2 = true).
Proof.
  intros Hij Hdef. unfold volatility, avg_price.
  split; intros H1 H2;
    pose proof (sort_values_desc_descending _ i j e1 e2 Hij H1 H2 Hdef) as Hle;
    destruct (fleb_notna _ _ Hle) as [_ Hn]; done.
Qed.

Lemma X5_rankings_descending_witness :
  of_Z 5 ≠ NaN ∧ fleb (of_Z 2) (of_Z 5) = true.
Proof.
  destruct (X5_rankings_descending (λ q, q) milk_flour 0 1
              ("Flour", of_Z 5) ("Milk", of_Z 2)) as [_ Hprice].
  - lia.
  - discriminate.
  - apply Hprice; apply (bool_decide_eq_true_1 (_ = _)); vm_compute; reflexivity.
Defined.

(** ** Further properties: monthly statistics and the pivot *)

(** The mean and the median of a single cell are that cell, whatever it
    holds: 0 + x over 1, and the middle of a one-cell series; a missing
    cell gives 0 over 0 and an empty series, NaN both. *)
Lemma agg_mean_single (x : float64) : agg_mean [x] = x.
Proof.
  unfold agg_mean, agg_sum, count, valid, fsum, of_nat.
  destruct x as [q| | |].
  - rewrite filter_cons_True, filter_nil by done.
    cbn [foldr length fadd fdiv]. change (Z.of_nat 1) with 1%Z.
    rewrite Z2Qc_inj_1, decide_False by done. f_equal. by field.
  - rewrite filter_cons_True, filter_nil by done.
    cbn [foldr length fadd fdiv]. by rewrite decide_False.
  - rewrite filter_cons_True, filter_nil by done.
    cbn [foldr length fadd fdiv]. by rewrite decide_False.
  - rewrite filter_cons_False, filter_nil by (by intros []).
    cbn [foldr length fdiv]. change (Z.of_nat 0) with 0%Z.
    by rewrite Z2Qc_inj_0, decide_True.
Qed.

Lemma agg_median_single (x : float64) : agg_median [x] = x.
Proof.
  unfold agg_median, valid. destruct x as [q| | |];
    first [ by rewrite filter_cons_True, filter_nil by done
          | by rewrite filter_cons_False, filter_nil by (by intros []) ].
Qed.

Lemma elem_of_monthly_stats food r :
  r ∈ monthly_stats food ↔
  (ms_Date r, ms_Tag r) ∈ (λ x, (Food.Date x, Food.Tag x)) <$> food ∧
  let prices := Food.Price_per_kg_or_litre <$>
    filter (λ x, (Food.Date x, Food.Tag x) = (ms_Date r, ms_Tag r)) food in
  Monthly_Mean r = agg_mean prices ∧ Monthly_Median r = agg_median prices.
Proof.
  unfold monthly_stats. rewrite list_elem_of_fmap. split.
  - intros ([[d t] g] & -> & Hg). simpl.
    apply elem_of_groupby in Hg as [Hk ->]. done.
  - intros (Hk & Hmean & Hmed). destruct r as [d t mean med]. simpl in *.
    eexists ((d, t), _). split; [|by apply elem_of_groupby].
    simpl. by rewrite Hmean, Hmed.
Qed.

(** X6.  When exactly one food row has a given Date and Tag, the row of
    [monthly_stats] for that Date and Tag has the price of that food row
    both as Monthly_Mean and as Monthly_Median (NaN when the price is
    missing). *)
Theorem X6_single_row_group_statistics (food : list Food.row)
    (d t : string) (r : Food.row) :
  filter (λ x, (Food.Date x, Food.Tag x) = (d, t)) food = [r] →
  {| ms_Date := d; ms_Tag := t;
     Monthly_Mean := Food.Price_per_kg_or_litre r;
     Monthly_Median := Food.Price_per_kg_or_litre r |} ∈ monthly_stats food.
Proof.
  intros Hone. apply elem_of_monthly_stats. simpl. split.
  - assert (r ∈ filter (λ x, (Food.Date x, Food.Tag x) = (d, t)) food) as Hr
      by (rewrite Hone; apply list_elem_of_here).
    apply list_elem_of_filter in Hr as [Hkey Hr].
    apply list_elem_of_fmap. by exists r.
  - rewrite Hone. cbn [fmap list_fmap].
    by rewrite agg_mean_single, agg_median_single.
Qed.

Lemma X6_single_row_group_statistics_witness :
  {| ms_Date := "2014-03"; ms_Tag := "Neutral";
     Monthly_Mean := of_Z 2; Monthly_Median := of_Z 2 |}
  ∈ monthly_stats milk_flour.
Proof.
  apply (X6_single_row_group_statistics milk_flour "2014-03" "Neutral"
           (food_row "Milk" "2014-03" 2 "Neutral")).
  reflexivity.
Defined.

Lemma NoDup_fmap_same {A B} (f : A → B) (l : list A) x y :
  NoDup (f <$> l) → x ∈ l → y ∈ l → f x = f y → x = y.
Proof.
  intros Hnd Hx Hy Hf.
  apply list_elem_of_lookup in Hx as [i Hi].
  apply list_elem_of_lookup in Hy as [j Hj].
  assert (i = j) as ->.
  { apply (NoDup_lookup (f <$> l) i j (f x)); [done|..].
    - by rewrite list_lookup_fmap, Hi.
    - by rewrite list_lookup_fmap, Hj, Hf. }
  congruence.
Qed.

Lemma pivot_cell_row ms m r :
  NoDup ((λ r, (ms_Date r, ms_Tag r)) <$> ms) → r ∈ ms →
  pivot_cell ms m (ms_Date r) (ms_Tag r) = metric_col m r.
Proof.
  intros Hnd Hr. unfold pivot_cell.
  destruct (list_find_elem_of
              (λ r', (ms_Date r', ms_Tag r') = (ms_Date r, ms_Tag r)) ms r Hr
              eq_refl) as [[i r'] Hf].
  rewrite Hf. apply list_find_Some in Hf as (Hi & Hkey & _).
  f_equal. eapply (NoDup_fmap_same _ ms); [exact Hnd| |done|exact Hkey].
  by eapply list_elem_of_lookup_2.
Qed.

Lemma fmap_fst_tagged {A B} (f : A → B) (l : list A) :
  ((λ k, (k, f k)) <$> l).*1 = l.
Proof. rewrite <- list_fmap_compose. apply list_fmap_id. Qed.

(** X7.  The pivot loses nothing and invents nothing.  Every row of
    [monthly_stats] is found in the wide table, under its Tag and at its
    Date, with the value of the selected metric; and every cell of the wide
    table either is the value of the row with that Date and Tag, or is NaN
    where no row has that Date and Tag.  Index and columns are the distinct
    Dates and the distinct Tags. *)
Theorem X7_pivot_melt_roundtrip (ms : list MonthlyStat) (m : metric)
    (pv : Pivot) :
  pivot ms m = inr pv →
  (∀ d, d ∈ pv_index pv ↔ d ∈ ms_Date <$> ms) ∧
  (∀ t, t ∈ (pv_columns pv).*1 ↔ t ∈ ms_Tag <$> ms) ∧
  NoDup (pv_index pv) ∧ NoDup ((pv_columns pv).*1) ∧
  (∀ r, r ∈ ms → (ms_Date r, ms_Tag r, metric_col m r) ∈ melt pv) ∧
  (∀ d t v, (d, t, v) ∈ melt pv →
     (∃ r, r ∈ ms ∧ ms_Date r = d ∧ ms_Tag r = t ∧ v = metric_col m r) ∨
     (v = NaN ∧ ∀ r, r ∈ ms → (ms_Date r, ms_Tag r) ≠ (d, t))).
Proof.
  unfold pivot. case_decide as Hnd; [|done]. intros [= <-]. simpl.
  rewrite fmap_fst_tagged.
  split_and!.
  - intros d. by rewrite elem_of_sort_by, elem_of_unique.
  - intros t. by rewrite elem_of_sort_by, elem_of_unique.
  - rewrite NoDup_sort_by. apply NoDup_unique.
  - rewrite NoDup_sort_by. apply NoDup_unique.
  - intros r Hr. apply elem_of_melt. simpl.
    assert (ms_Date r ∈ sort_by String.leb (unique (ms_Date <$> ms))) as Hd.
    { rewrite elem_of_sort_by, elem_of_unique. by apply list_elem_of_fmap_2. }
    apply list_elem_of_lookup in Hd as [i Hi].
    eexists _, i. split_and!.
    + apply list_elem_of_fmap. exists (ms_Tag r). split; [reflexivity|].
      rewrite elem_of_sort_by, elem_of_unique. by apply list_elem_of_fmap_2.
    + done.
    + rewrite list_lookup_fmap, Hi. simpl. f_equal. by apply pivot_cell_row.
  - intros d t v Hin. apply elem_of_melt in Hin as (col & i & Hc & Hd & Hv).
    simpl in Hc, Hd.
    apply list_elem_of_fmap in Hc as (t' & [= -> ->] & _).
    rewrite list_lookup_fmap, Hd in Hv. simpl in Hv. injection Hv as <-.
    unfold pivot_cell.
    destruct (list_find _ ms) as [[j r]|] eqn:Hf.
    + left. apply list_find_Some in Hf as (Hj & [= Hrd Hrt] & _).
      exists r. split_and!; try done. by eapply list_elem_of_lookup_2.
    + right. split; [done|]. apply list_find_None in Hf.
      rewrite Forall_forall in Hf. exact Hf.
Qed.

Lemma X7_pivot_melt_roundtrip_witness :
  ∃ pv, pivot (monthly_stats milk_flour) Mean = inr pv ∧
    NoDup (pv_index pv) ∧
    ∀ r, r ∈ monthly_stats milk_flour →
         (ms_Date r, ms_Tag r, metric_col Mean r) ∈ melt pv.
Proof.
  destruct (pivot (monthly_stats milk_flour) Mean) as [e|pv] eqn:Hp.
  { exfalso. unfold pivot in Hp.
    by rewrite decide_True in Hp by apply monthly_stats_NoDup. }
  exists pv. split; [done|].
  destruct (X7_pivot_melt_roundtrip (monthly_stats milk_flour) Mean pv Hp)
    as (_ & _ & Hnd & _ & Hin & _).
  by split.
Defined.

(** ** Further properties: the year-over-year series *)

Lemma ffill_from_no_nan last (s : Series) :
  Forall (λ x, x ≠ NaN) s → ffill_from last s = s.
Proof.
  intros H. revert last. induction H as [|x s Hx _ IH]; intros last; [done|].
  simpl. destruct x; try done; simpl; by rewrite IH.
Qed.

Lemma fill_no_nan fm (s : Series) :
  Forall (λ x, x ≠ NaN) s → fill fm s = s.
Proof. destruct fm; [apply ffill_from_no_nan|done]. Qed.

(** X8.  On a series without missing cells the percentage change does not
    depend on the fill default of the installed pandas: padding and not
    filling give the same result, so the Monthly YoY column of an
    affordability table whose basket costs are all present is the same
    under every pandas version. *)
Theorem X8_fill_default_irrelevant (n : nat) (s : Series)
    (a : list Afford.row) :
  (Forall (λ x, x ≠ NaN) s → pct_change Pad n s = pct_change NoFill n s) ∧
  (Forall (λ r, Afford.Basket_Cost_Euro r ≠ NaN) a →
     monthly_yoy Pad a = monthly_yoy NoFill a ∧
     monthly_yoy_charted Pad a = monthly_yoy_charted NoFill a).
Proof.
  assert (∀ k (s' : Series), Forall (λ x, x ≠ NaN) s' →
            pct_change Pad k s' = pct_change NoFill k s') as Hpc.
  { intros k s' Hs. unfold pct_change. by rewrite !fill_no_nan. }
  split; [apply Hpc|].
  intros Ha.
  assert (monthly_yoy Pad a = monthly_yoy NoFill a) as Heq.
  { unfold monthly_yoy. rewrite Hpc; [done|]. by apply Forall_fmap. }
  split; [done|]. unfold monthly_yoy_charted. by rewrite Heq.
Qed.

Lemma X8_fill_default_irrelevant_witness :
  monthly_yoy_charted Pad step_24 = monthly_yoy_charted NoFill step_24.
Proof.
  apply (X8_fill_default_irrelevant 12 [] step_24).
  unfold step_24, year_rows. rewrite Forall_app, !Forall_fmap.
  split; apply Forall_forall; intros m _; discriminate.
Defined.

Lemma complete_row_floats r :
  complete_row r → forallb notna (afford_floats r) = true.
Proof.
  intros ((b & Hb & _) & Hr & Hi). unfold afford_floats. rewrite Hb.
  destruct (Afford.Affordability_Ratio r); try done.
  by destruct (Afford.Affordability_Index r).
Qed.

Lemma yoy_cell_fin (cur prev : Qc) :
  prev ≠ 0%Qc →
  is_fin (fmul (fsub (fdiv (Fin cur) (Fin prev)) (Fin 1%Qc)) (of_Z 100)).
Proof. intros Hp. unfold fdiv. by rewrite decide_False. Qed.

Lemma monthly_yoy_charted_drop fm a :
  monthly_yoy_charted fm a =
  dropna_rows afford_floats (drop 12 (monthly_yoy fm a)).
Proof.
  unfold monthly_yoy_charted. apply dropna_rows_prefix.
  intros i r Hi Hr.
  apply monthly_yoy_lookup in Hr as (row & c & Ha & -> & Hc).
  rewrite yoy_lookup_lt in Hc.
  - injection Hc as <-. apply list_elem_of_here.
  - done.
  - rewrite length_fmap. by eapply lookup_lt_Some.
Qed.

(** X9.  When every row of the affordability table is complete (its three
    cells are numbers and the basket cost is not zero), the Monthly YoY
    chart shows every row but the first 12: exactly [len(afford) - 12]
    points, each with a number as its YoY value. *)
Theorem X9_complete_table_drops_exactly_12 (fm : fill_method)
    (a : list Afford.row) :
  Forall complete_row a →
  monthly_yoy_charted fm a = drop 12 (monthly_yoy fm a) ∧
  length (monthly_yoy_charted fm a) = length a - 12 ∧
  Forall (λ r, Forall (λ c, is_fin c) r.2) (monthly_yoy_charted fm a).
Proof.
  intros Hall.
  assert (fill fm (Afford.Basket_Cost_Euro <$> a) = Afford.Basket_Cost_Euro <$> a)
    as Hfill.
  { apply fill_no_nan, Forall_fmap.
    eapply Forall_impl; [exact Hall|].
    intros r ((b & Hb & _) & _). simpl. by rewrite Hb. }
  assert (∀ i r, 12 ≤ i → monthly_yoy fm a !! i = Some r →
            complete_row r.1 ∧ ∃ c, r.2 = [c] ∧ is_fin c) as Hrow.
  { intros i r Hi Hr.
    apply monthly_yoy_lookup in Hr as (row & c & Ha & -> & Hc). simpl.
    rewrite Forall_lookup in Hall. split; [by eapply Hall|].
    exists c. split; [done|].
    destruct (lookup_lt_is_Some_2 a (i - 12)) as [prow Hprow].
    { apply lookup_lt_Some in Ha. lia. }
    destruct (Hall _ _ Ha) as ((cur & Hcur & _) & _).
    destruct (Hall _ _ Hprow) as ((prev & Hprev & Hprev0) & _).
    destruct (yoy_lookup fm 12 (Afford.Basket_Cost_Euro <$> a) i)
      as (c' & Hc' & _ & Hge).
    { rewrite length_fmap. by eapply lookup_lt_Some. }
    rewrite Hc in Hc'. injection Hc' as <-.
    rewrite (Hge Hi (Fin cur) (Fin prev)).
    - by apply yoy_cell_fin.
    - by rewrite Hfill, list_lookup_fmap, Ha; simpl; rewrite Hcur.
    - by rewrite Hfill, list_lookup_fmap, Hprow; simpl; rewrite Hprev. }
  assert (monthly_yoy_charted fm a = drop 12 (monthly_yoy fm a)) as Heq.
  { rewrite monthly_yoy_charted_drop. unfold dropna_rows.
    apply filter_all, Forall_lookup. intros k r Hk.
    rewrite lookup_drop in Hk.
    destruct (Hrow (12 + k) r ltac:(lia) Hk) as (Hc & c & Hr2 & Hfin).
    rewrite Hr2, forallb_app, (complete_row_floats _ Hc). simpl.
    by destruct c. }
  split; [done|]. split.
  - by rewrite Heq, length_drop, length_monthly_yoy.
  - rewrite Heq. apply Forall_lookup. intros k r Hk.
    rewrite lookup_drop in Hk.
    destruct (Hrow (12 + k) r ltac:(lia) Hk) as (_ & c & -> & Hfin).
    by repeat constructor.
Qed.

Lemma X9_complete_table_drops_exactly_12_witness :
  length (monthly_yoy_charted Pad step_24) = length step_24 - 12.
Proof.
  apply (X9_complete_table_drops_exactly_12 Pad step_24).
  unfold step_24, year_rows. rewrite Forall_app, !Forall_fmap.
  split; apply Forall_forall; intros m _; (split; [|done]);
    eexists; (split; [reflexivity|]);
    intros H; apply (f_equal this) in H; discriminate H.
Defined.

(** X10.  The Monthly and Annual YoY charts never show an undefined
    value: every point drawn has a YoY value other than NaN.  In the Annual
    chart the first year of the table is never drawn, so it has at most one
    bar fewer than there are years. *)
Theorem X10_yoy_charts_have_no_gaps (fm : fill_method)
    (a : list Afford.row) :
  Forall (λ p, pt_y p ≠ NaN)
    (cell_points (λ r, XTime (Afford.Date r)) 0 (monthly_yoy_charted fm a)) ∧
  Forall (λ p, pt_y p ≠ NaN)
    (cell_points XInt 1 (dropna_rows (λ _, []) (yearly_avg_yoy fm a))) ∧
  dropna_rows (λ _, []) (yearly_avg_yoy fm a) =
    dropna_rows (λ _, []) (drop 1 (yearly_avg_yoy fm a)) ∧
  length (cell_points XInt 1 (dropna_rows (λ _, []) (yearly_avg_yoy fm a))) ≤
    length (yearly_avg a) - 1.
Proof.
  assert (∀ {A} (x : A → xval) j (floats : A → Series)
            (rows : list (A * Series)),
            Forall (λ r, is_Some (r.2 !! j)) rows →
            Forall (λ p, pt_y p ≠ NaN)
              (cell_points x j (dropna_rows floats rows))) as Hgap.
  { intros A x j floats rows Hcells. unfold cell_points, xy_points.
    apply Forall_lookup. intros i p Hp.
    rewrite lookup_zip_with, !list_lookup_fmap in Hp.
    destruct (dropna_rows floats rows !! i) as [r|] eqn:Hr; [|done].
    simpl in Hp. injection Hp as <-. simpl.
    apply list_elem_of_lookup_2 in Hr.
    unfold dropna_rows in Hr. apply list_elem_of_filter in Hr as [Hall Hr].
    rewrite Forall_forall in Hcells. destruct (Hcells r Hr) as [c Hc].
    rewrite Hc. simpl. intros ->.
    apply Is_true_true_2, forallb_True in Hall.
    rewrite Forall_app, !Forall_forall in Hall. destruct Hall as [_ Hall].
    apply list_elem_of_lookup_2 in Hc. by apply (Hall NaN) in Hc. }
  assert (dropna_rows (λ _, []) (yearly_avg_yoy fm a) =
          dropna_rows (λ _, []) (drop 1 (yearly_avg_yoy fm a))) as Hfirst.
  { apply dropna_rows_prefix. intros i r Hi Hr.
    assert (i = 0) as -> by lia.
    rewrite yearly_avg_yoy_zip, lookup_zip_with in Hr.
    destruct (yearly_avg a !! 0) as [e|] eqn:He; [|done]. simpl in Hr.
    unfold times100 in Hr.
    rewrite list_lookup_fmap, pct_change_lookup_lt in Hr.
    - simpl in Hr. injection Hr as <-. simpl.
      apply list_elem_of_further, list_elem_of_here.
    - lia.
    - rewrite length_fmap. by eapply lookup_lt_Some. }
  split_and!.
  - apply Hgap, monthly_yoy_cells.
  - apply Hgap. apply Forall_forall. intros r Hr.
    rewrite yearly_avg_yoy_zip in Hr.
    apply list_elem_of_lookup in Hr as [i Hi].
    rewrite lookup_zip_with in Hi.
    destruct (yearly_avg a !! i) as [e|]; [|done]. simpl in Hi.
    destruct (times100 _ !! i) as [c|]; [|done]. simpl in Hi.
    injection Hi as <-. by eexists.
  - exact Hfirst.
  - unfold cell_points, xy_points.
    rewrite length_zip_with, !length_fmap, Hfirst. unfold dropna_rows.
    etransitivity; [apply Nat.le_min_l|].
    etransitivity; [apply length_filter|].
    rewrite length_drop, yearly_avg_yoy_zip, length_zip_with.
    rewrite length_times100, length_pct_change, length_fmap. lia.
Qed.

(** ** Further properties: whole runs of the script *)

Lemma render_home_run s :
  render_home s =
  (inr (), {| heap := heap s;
              page := page s ++
                [Header "About This Project";
                 Markdown "Welcome to the Food Affordability Dashboard for Ireland (2014-2024)."] |}).
Proof. unfold render_home. run_emits. unfold emit; cbn [heap page].
  by rewrite <- !app_assoc. Qed.

Lemma length_head_n_le {A} n (l : list A) : length (head_n n l) ≤ n.
Proof. unfold head_n. rewrite length_take. lia. Qed.

Lemma length_tail_n_le {A} n (l : list A) : length (tail_n n l) ≤ n.
Proof. unfold tail_n. rewrite length_drop. lia. Qed.

(** X11.  On a loaded food table the Item-Level routine never raises and
    creates or changes no object.  It shows the price chart of the selected
    item, drawn from the rows of that item, and exactly four tables: the
    top-5 and bottom-5 of the volatility ranking and of the price ranking,
    each of at most five rows. *)
Theorem X11_item_level_page (g : Globals) (sq : Qc → Qc) (inp : Inputs)
    (s : State) (fd : list Food.row) :
  heap s !! food g = Some (FoodFrame fd) →
  let selected := selectbox (item_options fd) (item_choice inp) in
  ∃ emitted,
    render_item_level g sq inp s =
      (inr (), {| heap := heap s; page := page s ++ emitted |}) ∧
    LineChart (default "None" selected +:+ " Price Over Time (€/kg or €/litre)")
      ((λ p, {| pt_x := XStr p.1; pt_y := p.2; pt_color := None |}) <$>
         item_points (item_data fd selected)) ∈ emitted ∧
    tables_of emitted =
      [ rank_table "Std Dev" (top5_most_vol sq fd);
        rank_table "Std Dev" (top5_least_vol sq fd);
        rank_table "Avg Price (€)" (top5_expensive fd);
        rank_table "Avg Price (€)" (top5_cheap fd) ] ∧
    Forall (λ w, table_rows w ≤ 5) (tables_of emitted).
Proof.
  intros Hfood selected. unfold render_item_level.
  run_emits.
  run_with ltac:(by apply run_get_food).
  run_emits. unfold emit; cbn [heap page].
  rewrite <- !app_assoc. eexists. split; [reflexivity|].
  split; [find_widget|]. split; [reflexivity|].
  cbn [app]. unfold tables_of.
  repeat first [ rewrite filter_cons_True by done
               | rewrite filter_cons_False by (by intros []) ].
  rewrite filter_nil, !Forall_cons, Forall_nil.
  split_and!; try done; unfold rank_table, table_rows; rewrite length_fmap;
    unfold top5_most_vol, top5_least_vol, top5_expensive, top5_cheap;
    first [apply length_head_n_le|apply length_tail_n_le].
Qed.

Lemma X11_item_level_page_witness :
  ∃ emitted,
    render_item_level globals (λ q, q)
      {| item_choice := 1; metric_selected := Mean; view_type := Monthly |}
      (loaded step_24 milk_flour [] []) =
      (inr (), {| heap := heap (loaded step_24 milk_flour [] []);
                  page := page (loaded step_24 milk_flour [] []) ++ emitted |}) ∧
    Forall (λ w, table_rows w ≤ 5) (tables_of emitted).
Proof.
  destruct (X11_item_level_page globals (λ q, q)
              {| item_choice := 1; metric_selected := Mean; view_type := Monthly |}
              (loaded step_24 milk_flour [] []) milk_flour eq_refl)
    as (emitted & Hrun & _ & _ & Hrows).
  by exists emitted.
Defined.

Lemma render_item_level_run g sq inp s fd :
  heap s !! food g = Some (FoodFrame fd) →
  ∃ emitted,
    render_item_level g sq inp s =
      (inr (), {| heap := heap s; page := page s ++ emitted |}) ∧
    emitted ≠ [].
Proof.
  intros Hfood. unfold render_item_level.
  run_emits.
  run_with ltac:(by apply run_get_food).
  run_emits. unfold emit; cbn [heap page].
  rewrite <- !app_assoc. eexists. split; [reflexivity|]. discriminate.
Qed.

Lemma render_category_run g fm inp s fd :
  heap s !! food g = Some (FoodFrame fd) →
  ∃ emitted,
    render_Category_level_Analysis g fm inp s =
      (inr (), {| heap := heap s; page := page s ++ emitted |}) ∧
    emitted ≠ [].
Proof.
  intros Hfood. unfold render_Category_level_Analysis.
  run_emits.
  run_with ltac:(by apply run_get_food).
  destruct (pivot (monthly_stats fd) (metric_selected inp)) as [e|pv] eqn:Hp.
  { exfalso. pose proof (monthly_stats_NoDup fd) as Hnd.
    unfold pivot in Hp. by rewrite decide_True in Hp. }
  run_with ltac:(reflexivity).
  run_emits. unfold emit; cbn [heap page].
  rewrite <- !app_assoc. eexists. split; [reflexivity|]. discriminate.
Qed.

(** Every routine completes on the loaded tables and shows something. *)
Lemma render_run_loaded r fm sq inp s a f i t :
  heap s = heap (loaded a f i t) →
  ∃ created emitted,
    render r globals fm sq inp s =
      (inr (), {| heap := heap s ++ created; page := page s ++ emitted |}) ∧
    emitted ≠ [].
Proof.
  intros Hs.
  assert (heap s !! afford globals = Some (AffordFrame [] (afford_rows a))) as Ha
    by by rewrite Hs.
  assert (heap s !! food globals = Some (FoodFrame f)) as Hf by by rewrite Hs.
  destruct r; simpl.
  - eexists [], _. rewrite app_nil_r. split; [apply render_home_run|done].
  - destruct (render_item_level_run globals sq inp s f Hf)
      as (emitted & Hrun & Hne).
    exists [], emitted. by rewrite app_nil_r.
  - destruct (render_category_run globals fm inp s f Hf)
      as (emitted & Hrun & Hne).
    exists [], emitted. by rewrite app_nil_r.
  - destruct (view_type inp) eqn:Hv.
    + destruct (render_affordability_monthly_run globals fm inp s a Hv Ha)
        as (emitted & Hrun & Hin).
      eexists _, emitted. split; [done|].
      intros ->. by apply elem_of_nil in Hin.
    + destruct (render_affordability_annual_run globals fm inp s a Hv Ha)
        as (emitted & Hrun & Hin & _).
      eexists _, emitted. split; [done|].
      intros ->. by apply elem_of_nil in Hin.
Qed.

Lemma load_run_empty a f i t s :
  heap s = [] →
  load a f i t s =
    (inr globals, {| heap := heap (loaded a f i t); page := page s |}).
Proof.
  intros Hs. unfold load.
  repeat (erewrite (run_bind (alloc _)); [|reflexivity]; cbn [heap page]).
  by rewrite Hs.
Qed.

(** X12.  A run of the whole script on any four loaded tables, for any
    choice in the navigation selector and any inputs, never raises.  The
    selector yields a view, the router runs the routine of that view on
    the loaded tables, and the page is: the title, a rule, the navigation
    header and the selector; then exactly the widgets of that routine, at
    least one; then a rule and the footer caption.  The store holds the
    four loaded tables, unchanged and first, followed by the objects that
    routine created. *)
Theorem X12_run_completes (a : list Afford.row) (f : list Food.row)
    (i t : list (list string)) (fm : fill_method) (sq : Qc → Qc)
    (view_choice : nat) (inp : Inputs) :
  let opening :=
    [Title "Food Affordability in Ireland (2014–2024)";
     Markdown "---";
     Header "Navigation";
     SelectboxW "Choose Analysis Level" views] in
  let closing :=
    [Markdown "---";
     Caption "Created using Streamlit & Plotly | Data: CSO, FAO, SafeFood, HSE"] in
  let tables :=
    [AffordFrame [] (afford_rows a); FoodFrame f; RawFrame i; RawFrame t] in
  ∃ view r created body,
    selectbox views view_choice = Some view ∧
    route view = Some r ∧
    render r globals fm sq inp {| heap := tables; page := opening |} =
      (inr (), {| heap := tables ++ created; page := opening ++ body |}) ∧
    body ≠ [] ∧
    main a f i t fm sq view_choice inp initial =
      (inr (),
       {| heap := tables ++ created; page := opening ++ body ++ closing |}).
Proof.
  intros opening closing tables.
  assert (∃ view r, selectbox views view_choice = Some view ∧
                    route view = Some r) as (view & r & Hsel & Hr).
  { destruct (selectbox views view_choice) as [view|] eqn:Hs.
    - pose proof (selectbox_elem_of _ _ _ Hs) as Hin. unfold views in Hin.
      rewrite !elem_of_cons, elem_of_nil in Hin.
      destruct Hin as [->|[->|[->|[->|[]]]]]; by eexists _, _.
    - by apply selectbox_None in Hs. }
  destruct (render_run_loaded r fm sq inp
              {| heap := tables; page := opening |} a f i t eq_refl)
    as (created & body & Hrun & Hne).
  cbn [heap page] in Hrun.
  exists view, r, created, body. split_and!; try done.
  unfold main. run_emits.
  run_with ltac:(by apply load_run_empty).
  run_emits.
  rewrite Hsel. change (default "" (Some view)) with view.
  unfold router. rewrite Hr.
  change (page initial) with (@nil widget). cbn [app].
  change (heap (loaded a f i t)) with tables.
  fold opening.
  run_with ltac:(exact Hrun).
  run_emits. unfold emit; cbn [heap page].
  by rewrite <- !app_assoc.
Qed.

(** ** Further properties: yearly totals *)

Lemma agg_sum_qtotal (xs : Series) :
  Forall not_inf xs → agg_sum xs = Fin (qtotal xs).
Proof.
  unfold agg_sum, valid, qtotal, fsum.
  induction 1 as [|x xs [Hp Hn] _ IH]; [done|].
  rewrite filter_cons. destruct x as [q| | |]; try done.
  - rewrite decide_True by done. cbn [foldr fmap list_fmap qval].
    by rewrite IH.
  - rewrite decide_False by (by intros []). cbn [foldr fmap list_fmap qval].
    rewrite IH. f_equal. ring.
Qed.

Lemma qtotal_app xs ys : qtotal (xs ++ ys) = (qtotal xs + qtotal ys)%Qc.
Proof.
  unfold qtotal. rewrite fmap_app.
  generalize (qval <$> xs) (qval <$> ys). intros l k.
  induction l as [|x l IH]; cbn [app foldr]; [ring|].
  rewrite IH. ring.
Qed.

Lemma qtotal_Permutation xs ys : xs ≡ₚ ys → qtotal xs = qtotal ys.
Proof.
  unfold qtotal.
  induction 1 as [|x xs ys _ IH|x y xs|xs ys zs _ IH1 _ IH2];
    cbn [fmap list_fmap foldr].
  - done.
  - by rewrite IH.
  - ring.
  - by rewrite IH1.
Qed.

Lemma fsum_group_totals {A} (col : A → float64) (groups : list (list A)) :
  Forall (Forall (λ r, not_inf (col r))) groups →
  fsum ((λ g, agg_sum (col <$> g)) <$> groups) =
  Fin (qtotal (col <$> mjoin groups)).
Proof.
  unfold fsum. induction 1 as [|g groups Hg _ IH]; [done|].
  cbn [fmap list_fmap foldr mjoin list_join]. rewrite IH.
  rewrite agg_sum_qtotal by by apply Forall_fmap.
  by rewrite fmap_app, qtotal_app.
Qed.

Lemma by_year_values col agg a :
  (by_year col agg a).*2 =
  (λ g, agg (col <$> g)) <$> (groupby Z.leb (λ r, year (Afford.Date r)) a).*2.
Proof. unfold by_year. by rewrite <- !list_fmap_compose. Qed.

Lemma yearly_totals_sum (a : list Afford.row) :
  Forall (λ r, not_inf (Afford.Basket_Cost_Euro r)) a →
  fsum ((yearly_total a).*2) = agg_sum (Afford.Basket_Cost_Euro <$> a).
Proof.
  intros Hfin. unfold yearly_total. rewrite by_year_values.
  destruct (groupby_partition Z.leb (λ r, year (Afford.Date r)) a) as [Hperm _].
  rewrite fsum_group_totals.
  - rewrite agg_sum_qtotal by by apply Forall_fmap.
    f_equal. apply qtotal_Permutation. by rewrite Hperm.
  - apply Forall_forall. intros g Hg. apply Forall_forall. intros r Hr.
    rewrite Forall_forall in Hfin. apply Hfin. rewrite <- Hperm.
    apply list_elem_of_join. by exists g.
Qed.

(** X13.  When the basket costs are whole numbers (or missing) of a total
    magnitude below 2^53, the bars of the yearly-total chart add up to the
    total of all basket costs of the table, missing costs counting as
    nothing: grouping by year neither loses nor double-counts a month. *)
Theorem X13_yearly_totals_add_up (a : list Afford.row)
    (zs : list (option Z)) :
  Afford.Basket_Cost_Euro <$> a = int_cell <$> zs →
  (int_abs_total zs < 2 ^ 53)%Z →
  fsum ((yearly_total a).*2) = of_Z (int_total zs) ∧
  agg_sum (Afford.Basket_Cost_Euro <$> a) = of_Z (int_total zs).
Proof.
  intros Hzs _.
  assert (agg_sum (Afford.Basket_Cost_Euro <$> a) = of_Z (int_total zs)) as Hsum
    by by rewrite Hzs, agg_sum_int.
  split; [|done]. rewrite <- Hsum. apply yearly_totals_sum.
  assert (Forall not_inf (Afford.Basket_Cost_Euro <$> a)) as Hfin.
  { rewrite Hzs. apply Forall_fmap, Forall_forall.
    intros [n|] _; split; discriminate. }
  apply Forall_forall. intros r Hr. rewrite Forall_forall in Hfin.
  apply Hfin. by apply list_elem_of_fmap_2.
Qed.

Lemma X13_yearly_totals_add_up_witness :
  fsum ((yearly_total varied_24).*2) = of_Z 3000 ∧
  agg_sum (Afford.Basket_Cost_Euro <$> varied_24) = of_Z 3000.
Proof.
  destruct (X13_yearly_totals_add_up varied_24
    (Some <$> [94; 95; 96; 97; 98; 99; 101; 102; 103; 104; 105; 106;
               144; 145; 146; 147; 148; 149; 151; 152; 153; 154; 155; 156]%Z))
    as [Hbars Hall].
  - reflexivity.
  - vm_compute. reflexivity.
  - split; [exact Hbars|exact Hall].
Defined.

(** ** Further properties: reading a year-over-year value *)

Lemma Qc_of_Z_100_pos : (0 < Qc_of_Z 100)%Qc.
Proof. rewrite <- Z2Qc_inj_0. by apply Z2Qc_inj_lt. Qed.

Lemma pct_sign (cur prev : Qc) :
  (0 < prev)%Qc →
  let v := ((cur / prev - 1) * Qc_of_Z 100)%Qc in
  ((0 < v)%Qc ↔ (prev < cur)%Qc) ∧ (v = 0%Qc ↔ cur = prev).
Proof.
  intros Hprev v.
  assert (prev ≠ 0%Qc) as Hne.
  { intros ->. by apply Qclt_not_eq in Hprev. }
  pose proof Qc_of_Z_100_pos as Hh.
  assert (Qc_of_Z 100 ≠ 0%Qc) as Hhne.
  { intros Heq. rewrite Heq in Hh. by apply Qclt_not_eq in Hh. }
  set (z := (/ prev * Qc_of_Z 100)%Qc).
  assert (0 < z)%Qc as Hz by (apply Qcmult_pos_pos; [by apply Qcinv_pos|done]).
  assert (prev * z = Qc_of_Z 100)%Qc as Hpz by (unfold z; by field).
  assert (cur * z = v + Qc_of_Z 100)%Qc as Hcz by (unfold z, v; by field).
  split.
  - rewrite (Qcmult_lt_mono_pos_r prev cur z Hz), Hpz, Hcz.
    rewrite (Qcplus_lt_mono_r 0 v (Qc_of_Z 100)).
    by rewrite Qcplus_0_l.
  - split.
    + intros Hv. rewrite Hv, Qcplus_0_l in Hcz.
      rewrite <- Hpz in Hcz.
      apply (f_equal (λ x, x * / z)%Qc) in Hcz.
      rewrite <- !Qcmult_assoc, !Qcmult_inv_r, !Qcmult_1_r in Hcz; [done|].
      intros Heq. rewrite Heq in Hz. by apply Qclt_not_eq in Hz.
    + intros ->. unfold v. by field.
Qed.

(** X14.  In the Monthly YoY column a row whose basket cost and the cost
    12 rows before are numbers, the earlier one positive, holds the number
    (cur / prev - 1) * 100; it is positive exactly when the cost rose over
    the 12 months and zero exactly when it is unchanged (the table having no
    missing basket cost). *)
Theorem X14_monthly_yoy_sign (fm : fill_method) (a : list Afford.row)
    (i : nat) (row prow : Afford.row) (cur prev : Qc) :
  Forall (λ r, Afford.Basket_Cost_Euro r ≠ NaN) a →
  12 ≤ i → a !! i = Some row → a !! (i - 12) = Some prow →
  Afford.Basket_Cost_Euro row = Fin cur →
  Afford.Basket_Cost_Euro prow = Fin prev →
  (0 < prev)%Qc →
  let v := ((cur / prev - 1) * Qc_of_Z 100)%Qc in
  monthly_yoy fm a !! i = Some (row, [Fin v]) ∧
  ((0 < v)%Qc ↔ (prev < cur)%Qc) ∧
  (v = 0%Qc ↔ cur = prev).
Proof.
  intros Hall Hi Hrow Hprow Hcur Hprev Hpos v.
  split; [|by apply pct_sign].
  assert (prev ≠ 0%Qc) as Hne.
  { intros ->. by apply Qclt_not_eq in Hpos. }
  assert (fill fm (Afford.Basket_Cost_Euro <$> a) = Afford.Basket_Cost_Euro <$> a)
    as Hfill by by apply fill_no_nan, Forall_fmap.
  rewrite monthly_yoy_zip, lookup_zip_with, Hrow. simpl.
  destruct (yoy_lookup fm 12 (Afford.Basket_Cost_Euro <$> a) i)
    as (c & Hc & _ & Hge).
  { rewrite length_fmap. by eapply lookup_lt_Some. }
  rewrite Hc. simpl. do 3 f_equal.
  rewrite (Hge Hi (Fin cur) (Fin prev)).
  - unfold fdiv. rewrite decide_False by done. done.
  - by rewrite Hfill, list_lookup_fmap, Hrow; simpl; rewrite Hcur.
  - by rewrite Hfill, list_lookup_fmap, Hprow; simpl; rewrite Hprev.
Qed.

Lemma X14_monthly_yoy_sign_witness :
  (0 < (Qc_of_Z 110 / Qc_of_Z 100 - 1) * Qc_of_Z 100)%Qc.
Proof.
  destruct (X14_monthly_yoy_sign Pad step_24 12
              (month_row 2021 1 110) (month_row 2020 1 100)
              (Qc_of_Z 110) (Qc_of_Z 100)) as (_ & Hsign & _).
  - unfold step_24, year_rows. rewrite Forall_app, !Forall_fmap.
    split; apply Forall_forall; intros m _; discriminate.
  - lia.
  - reflexivity.
  - reflexivity.
  - reflexivity.
  - reflexivity.
  - rewrite <- Z2Qc_inj_0. by apply Z2Qc_inj_lt.
  - apply Hsign. by apply Z2Qc_inj_lt.
Defined.
